(** * Service registry over etcd (objdb/etcdService.go)

    A shallow embedding of the registration, snapshot and watch code of the
    etcd plugin, and the properties of it that the design document states.

    - Go strings are byte strings: [string].
    - Go [int] is 64 bits wide, [uint64] wraps modulo [2^64]; both are [Z].
    - Go [error] values are represented by their [Error()] text.
    - The etcd keys API is an interface over an abstract store state.
    - Channels and goroutines started by the code are recorded in the
      plugin's world, so that what was signalled and what was started can
      be stated. *)

From Stdlib Require Import ZArith String Ascii List Lia Bool.
From Stdlib Require Import DecimalString DecimalZ.
From stdpp Require Import base option list gmap strings.

Local Open Scope string_scope.
Local Open Scope Z_scope.
Local Open Scope list_scope.

(** ** Go library functions used by the service code *)

Module GoStrings.

(** [strings.HasPrefix]. *)
Fixpoint HasPrefix (s pre : string) : bool :=
  match pre with
  | EmptyString => true
  | String p pre' =>
      match s with
      | EmptyString => false
      | String c s' => if Ascii.eqb c p then HasPrefix s' pre' else false
      end
  end.

(** [s[n:]]. *)
Fixpoint drop_bytes (n : nat) (s : string) : string :=
  match n with
  | O => s
  | S n' => match s with
            | EmptyString => EmptyString
            | String _ s' => drop_bytes n' s'
            end
  end.

(** [strings.TrimPrefix]: [s] without the leading [pre], or [s] itself
    when it does not start with [pre]. *)
Definition TrimPrefix (s pre : string) : string :=
  if HasPrefix s pre then drop_bytes (String.length pre) s else s.

(** [strings.Contains]. *)
Fixpoint Contains (s sub : string) : bool :=
  if HasPrefix s sub then true
  else match s with
       | EmptyString => false
       | String _ s' => Contains s' sub
       end.

Definition string_rev_of (acc : list ascii) : string :=
  string_of_list_ascii (rev acc).

(** The scan of [strings.Split] for a non-empty separator: [skip] counts
    the bytes of a separator occurrence still to be passed over, [cur]
    holds the current piece, last byte first. *)
Fixpoint split_scan (sep s : string) (skip : nat) (cur : list ascii)
  : list string :=
  match s with
  | EmptyString => [string_rev_of cur]
  | String c s' =>
      match skip with
      | S k => split_scan sep s' k cur
      | O =>
          if HasPrefix s sep
          then string_rev_of cur
                 :: split_scan sep s' (Nat.pred (String.length sep)) []
          else split_scan sep s' O (c :: cur)
      end
  end.

(** [strings.Split(s, sep)] for a non-empty [sep]: all the pieces of [s]
    between occurrences of [sep]; one piece more than there are
    occurrences. The service code only splits on ["/"] and [":"]. *)
Definition Split (s sep : string) : list string := split_scan sep s O [].

End GoStrings.

Module GoStrconv.

Definition intMax : Z := 2 ^ 63 - 1.
Definition intMin : Z := - 2 ^ 63.
Definition uint64Max : Z := 2 ^ 64 - 1.

(** [strconv.Itoa]: decimal text, with a leading [-] below zero. *)
Definition Itoa (i : Z) : string := NilZero.string_of_int (Z.to_int i).

Inductive NumError := ErrSyntax | ErrRange.

Definition digit_of (c : ascii) : option Z :=
  let n := Z.of_nat (nat_of_ascii c) in
  if (48 <=? n) && (n <=? 57) then Some (n - 48) else None.

(** The digit loop of [strconv.ParseUint(s, 10, 64)]: a byte that is not
    a decimal digit is a syntax error with value 0; running past 64 bits
    is a range error with the largest value, reported at the digit where
    it happens. *)
Fixpoint parse_digits (s : string) (n : Z) : Z * option NumError :=
  match s with
  | EmptyString => (n, None)
  | String c s' =>
      match digit_of c with
      | None => (0, Some ErrSyntax)
      | Some d =>
          if uint64Max / 10 + 1 <=? n then (uint64Max, Some ErrRange)
          else
            let n1 := n * 10 + d in
            if uint64Max <? n1 then (uint64Max, Some ErrRange)
            else parse_digits s' n1
      end
  end.

Definition ParseUint (s : string) : Z * option NumError :=
  match s with
  | EmptyString => (0, Some ErrSyntax)
  | _ => parse_digits s 0
  end.

(** [strconv.Atoi], that is [ParseInt(s, 10, 0)] on a 64-bit [int]: an
    optional sign, then digits; out of range values are clamped. *)
Definition Atoi (s : string) : Z * option NumError :=
  match s with
  | EmptyString => (0, Some ErrSyntax)
  | String c s' =>
      let neg := Ascii.eqb c "-"%char in
      let body := if Ascii.eqb c "+"%char || neg then s' else s in
      match ParseUint body with
      | (_, Some ErrSyntax) => (0, Some ErrSyntax)
      | (un, _) =>
          let cutoff := 2 ^ 63 in
          if negb neg && (cutoff <=? un) then (cutoff - 1, Some ErrRange)
          else if neg && (cutoff <? un) then (- cutoff, Some ErrRange)
          else (if neg then - un else un, None)
      end
  end.

End GoStrconv.

Import GoStrings GoStrconv.

(** ** Data *)

(** A Go [error], by its [Error()] text. *)
Definition error : Type := string.

Inductive result (A : Type) : Type :=
| Ok (a : A)
| Err (e : error).
Arguments Ok {A} a.
Arguments Err {A} e.

(** Modelled from the spec: the declaration of [ServiceInfo] is in the
    plugin interface file of the package, not in the two files embedded
    here; its fields are the three the service code reads and writes, the
    identity of an instance. The payload of an instance is what the codec
    makes of the record. *)
Record ServiceInfo : Type := mkServiceInfo {
  ServiceName : string;
  HostAddr : string;
  Port : Z
}.

(** Modelled from the spec: the event type constants and [WatchServiceEvent]
    are declared beside [ServiceInfo]; an event is a tag (added, removed,
    error) and the instance it is about. *)
Inductive WatchServiceEventType : Type :=
| WatchServiceEventAdd
| WatchServiceEventDel
| WatchServiceEventError.

Record WatchServiceEvent : Type := mkEvent {
  EventType : WatchServiceEventType;
  EventInfo : ServiceInfo
}.

(** The zero [ServiceInfo], what a composite literal leaves unset. *)
Definition zeroServiceInfo : ServiceInfo := mkServiceInfo "" "" 0.

Global Instance ServiceInfo_eq_dec : EqDecision ServiceInfo.
Proof. solve_decision. Defined.
Global Instance WatchServiceEventType_eq_dec : EqDecision WatchServiceEventType.
Proof. solve_decision. Defined.
Global Instance WatchServiceEvent_eq_dec : EqDecision WatchServiceEvent.
Proof. solve_decision. Defined.

(** ** The etcd client, as the service code sees it *)

(** [client.Node]: the service code reads [Key], [Dir], [Value], [Nodes]. *)
#[local] Set Warnings "-register-all".
Inductive Node : Type :=
  mkNode (Key : string) (Dir : bool) (Value : string) (Nodes : list Node).

Definition Key (n : Node) : string := let 'mkNode k _ _ _ := n in k.
Definition Dir (n : Node) : bool := let 'mkNode _ d _ _ := n in d.
Definition Value (n : Node) : string := let 'mkNode _ _ v _ := n in v.
Definition Nodes (n : Node) : list Node := let 'mkNode _ _ _ l := n in l.

(** [client.Response]; [Index] is a [uint64]. A response always carries
    its node. *)
Record Response : Type := mkResponse {
  Action : string;
  RespNode : Node;
  Index : Z
}.

Record GetOptions : Type := { Recursive : bool; Sort : bool }.
Record SetOptions : Type := { TTL : Z }.
Record WatcherOptions : Type := { AfterIndex : Z; WRecursive : bool }.

(** A [client.Watcher], by what its successive [Next] calls return; when
    the list is used up [Next] blocks. *)
Definition Watcher : Type := list (result Response).

(** [client.KeysAPI] over a store state [Store]. [storeIndex] is the
    store's modification index at a state; the service code cannot call
    it, it is what the statements about indices refer to. *)
Record KeysAPI (Store : Type) : Type := {
  kGet : Store -> string -> GetOptions -> result Response;
  kSet : Store -> string -> string -> SetOptions -> Store * option error;
  kDelete : Store -> string -> Store * option error;
  kWatcher : Store -> string -> WatcherOptions -> option Watcher;
  storeIndex : Store -> Z
}.
Arguments kGet {Store} _ _ _ _.
Arguments kSet {Store} _ _ _ _ _.
Arguments kDelete {Store} _ _ _.
Arguments kWatcher {Store} _ _ _ _.
Arguments storeIndex {Store} _ _.

(** A read whose response, when there is one, reports the store's index. *)
Definition read_reports_index {Store} (kapi : KeysAPI Store) (st : Store)
  (key : string) (opts : GetOptions) : Prop :=
  forall resp, kGet kapi st key opts = Ok resp ->
               Index resp = storeIndex kapi st.

Definition serviceTTL : Z := 30.

(** The options of the read of [getServiceState]. *)
Definition snapshotOptions : GetOptions := {| Recursive := true; Sort := true |}.

Definition servicePrefix : string := "/contiv.io/service/".

(** The key of an instance, as [RegisterService] and [DeregisterService]
    build it. *)
Definition keyNameOf (serviceInfo : ServiceInfo) : string :=
  servicePrefix +:+ ServiceName serviceInfo +:+ "/" +:+
    HostAddr serviceInfo +:+ ":" +:+ Itoa (Port serviceInfo).

(** Whether a byte occurs in a text. *)
Fixpoint hasByte (c : ascii) (s : string) : bool :=
  match s with
  | EmptyString => false
  | String x s' => Ascii.eqb x c || hasByte c s'
  end.

(** The prefix of a service, as [GetService] and [WatchService] build it. *)
Definition serviceKey (name : string) : string :=
  servicePrefix +:+ name +:+ "/".

(** ** Snapshot loader and event translator *)

(** What a goroutine's body does when it stops being followed: it returned,
    it ended the process through [log.Fatalf], it panicked, or it is
    waiting on something (a channel, the watcher, the fuel of the model). *)
Inductive ThreadEnd : Type :=
| Returned
| Fatal
| Panicked
| Waiting.

Global Instance ThreadEnd_eq_dec : EqDecision ThreadEnd.
Proof. solve_decision. Defined.

Section Service.

Context {Store : Type}.
Variable kapi : KeysAPI Store.

(** [json.Unmarshal] into a [ServiceInfo]. *)
Variable Unmarshal : string -> result ServiceInfo.

(** The loop of [getServiceState] over the nodes of the directory: the
    first value that does not decode ends the read with its error. *)
Fixpoint parseNodes (nodes : list Node) (srvcList : list ServiceInfo)
  : result (list ServiceInfo) :=
  match nodes with
  | [] => Ok srvcList
  | node :: rest =>
      match Unmarshal (Value node) with
      | Err err => Err err
      | Ok respSrvc => parseNodes rest (srvcList ++ [respSrvc])
      end
  end.

(** [getServiceState]: the index to watch from, the instances, the error. *)
Definition getServiceState (st : Store) (key : string)
  : Z * list ServiceInfo * option error :=
  match kGet kapi st key snapshotOptions with
  | Err err =>
      if Contains err "Key not found" then (0, [], None)
      else (0, [], Some err)
  | Ok resp =>
      if negb (Dir (RespNode resp))
      then (0, [], Some "Invalid Response from etcd")
      else
        match parseNodes (Nodes (RespNode resp)) [] with
        | Err err => (0, [], Some err)
        | Ok srvcList => ((Index resp + 1) mod 2 ^ 64, srvcList, None)
        end
  end.

(** [GetService]. *)
Definition GetService (st : Store) (name : string)
  : list ServiceInfo * option error :=
  let '(_, srvcList, err) := getServiceState st (serviceKey name) in
  (srvcList, err).

Definition addEvent (srvInfo : ServiceInfo) : WatchServiceEvent :=
  mkEvent WatchServiceEventAdd srvInfo.
Definition delEvent (srvInfo : ServiceInfo) : WatchServiceEvent :=
  mkEvent WatchServiceEventDel srvInfo.
Definition errorEvent : WatchServiceEvent :=
  mkEvent WatchServiceEventError zeroServiceInfo.

(** [initServiceState]: the index, the error, and what it sent on
    [eventCh]. *)
Definition initServiceState (st : Store) (key : string)
  : Z * option error * list WatchServiceEvent :=
  let '(mIndex, srvcList, err) := getServiceState st key in
  match err with
  | Some e => (mIndex, Some e, [])
  | None => (mIndex, None, map addEvent srvcList)
  end.

(** What handling one watch response does: it sends events on [eventCh]
    and goes on with the loop, or it panics (an index out of range). *)
Inductive Handled : Type :=
| Sends (evs : list WatchServiceEvent)
| Panics.

(** The [case watchResp := <-watchCh] arm of the second goroutine of
    [WatchService]. Indexing a slice is partial, as in Go. *)
Definition handleWatchResp (watchResp : Response) : Handled :=
  let srvKey := TrimPrefix (Key (RespNode watchResp)) servicePrefix in
  let parts := Split srvKey "/" in
  if (length parts <? 2)%nat then Sends []
  else
    match parts !! 0%nat, parts !! 1%nat with
    | Some srvName, Some hostAddr =>
        let parts := Split hostAddr ":" in
        if negb (length parts =? 2)%nat then Sends []
        else
          match parts !! 0%nat, parts !! 1%nat with
          | Some hostAddr, Some portStr =>
              let '(portNum, _) := Atoi portStr in
              let srvInfo := mkServiceInfo srvName hostAddr portNum in
              if String.eqb (Action watchResp) "set"
              then Sends [addEvent srvInfo]
              else if String.eqb (Action watchResp) "delete"
                      || String.eqb (Action watchResp) "expire"
              then Sends [delEvent srvInfo]
              else Sends []
          | _, _ => Panics
          end
    | _, _ => Panics
    end.

(** The instance a watch key stands for, when it has the shape the
    translator accepts: at least two segments after the prefix, the
    second one split in two by a colon. *)
Definition parseServiceKey (key : string) : option ServiceInfo :=
  match Split (TrimPrefix key servicePrefix) "/" with
  | srvName :: hostAddr :: _ =>
      match Split hostAddr ":" with
      | [host; portStr] => Some (mkServiceInfo srvName host (fst (Atoi portStr)))
      | _ => None
      end
  | _ => None
  end.

(** The events the translator sends for an action and an instance. *)
Definition eventsFor (action : string) (srvInfo : ServiceInfo)
  : list WatchServiceEvent :=
  if String.eqb action "set" then [addEvent srvInfo]
  else if String.eqb action "delete" || String.eqb action "expire"
       then [delEvent srvInfo]
       else [].

(** What the second goroutine receives from its [select]. *)
Inductive HandlerInput : Type :=
| FromWatch (watchResp : Response)
| FromStop (stopReq : bool).

(** The second goroutine of [WatchService], over what its [select]
    delivers: the events it sends, whether it cancelled the watch, and how
    it ends. *)
Fixpoint handlerLoop (inputs : list HandlerInput)
  : list WatchServiceEvent * bool * ThreadEnd :=
  match inputs with
  | [] => ([], false, Waiting)
  | FromWatch watchResp :: rest =>
      match handleWatchResp watchResp with
      | Panics => ([], false, Panicked)
      | Sends evs =>
          let '(more, cancelled, fin) := handlerLoop rest in
          (evs ++ more, cancelled, fin)
      end
  | FromStop stopReq :: rest =>
      if stopReq then ([], true, Returned) else handlerLoop rest
  end.

(** The run of the first goroutine of [WatchService]. *)
Record WatchRun : Type := mkWatchRun {
  emitted : list WatchServiceEvent;         (* sent on [eventCh] *)
  watcherCalled : option (string * WatcherOptions); (* [kapi.Watcher] *)
  forwarded : list Response;                (* sent on [watchCh] *)
  finish : ThreadEnd
}.

(** The [for] loop over [watcher.Next]: any error ends the goroutine. *)
Fixpoint watchNextLoop (w : Watcher) : list Response * ThreadEnd :=
  match w with
  | [] => ([], Waiting)
  | Err _ :: _ => ([], Returned)
  | Ok etcdRsp :: rest =>
      let '(more, fin) := watchNextLoop rest in (etcdRsp :: more, fin)
  end.

(** The first goroutine of [WatchService]. A failed snapshot ends in
    [log.Fatalf]; a nil watcher is reported by an error event, after which
    [watcher.Next] is called on it all the same. *)
Definition watchThread (st : Store) (keyName : string) : WatchRun :=
  let '(watchIndex, err, sent) := initServiceState st keyName in
  match err with
  | Some _ => mkWatchRun sent None [] Fatal
  | None =>
      let opts := {| AfterIndex := watchIndex; WRecursive := true |} in
      match kWatcher kapi st keyName opts with
      | None =>
          mkWatchRun (sent ++ [errorEvent]) (Some (keyName, opts)) [] Panicked
      | Some watcher =>
          let '(resps, fin) := watchNextLoop watcher in
          mkWatchRun sent (Some (keyName, opts)) resps fin
      end
  end.

(** [WatchService]: it starts the two goroutines and returns [nil]. What
    it started is returned beside the error: the key [watchThread] and
    [handlerLoop] then work on, whenever they get to run. *)
Definition WatchService (name : string) : option error * string :=
  let keyName := serviceKey name in
  (None, keyName).

End Service.

(** ** Registration and lease renewal *)

(** [serviceState]; [stopChan] is the channel, by its place in the
    world's channel table. *)
Record serviceState : Type := mkServiceState {
  stServiceName : string;
  stHostAddr : string;
  stPort : Z;
  stopChan : nat
}.

(** A started [go refreshService(kapi, keyName, keyVal, stopChan)]. *)
Record Refresher : Type := mkRefresher {
  rKeyName : string;
  rKeyVal : string;
  rStopChan : nat
}.

(** One [kapi.Set] of a renewal loop: when it was issued, what it wrote
    and what it returned. *)
Record SetCall : Type := mkSetCall {
  setAt : Z;
  setKey : string;
  setVal : string;
  setOpts : SetOptions;
  setErr : option error
}.

(** One pass through the timer arm of the loop: when the [select] was
    entered, when its timer fired, the writes that followed, and when the
    last of them returned. *)
Record Cycle : Type := mkCycle {
  entered : Z;
  fired : Z;
  writes : list SetCall;
  finished : Z
}.

(** What surrounds one renewal loop. Time is in nanoseconds, as
    [time.Duration]. [stopAt] is when a value is put on the loop's
    [stopChan], if ever; [setTakes] how long a [Set] issued at a given time
    takes; [timerWinsTie] the choice [select] makes when both arms can
    proceed at the same instant. *)
Record RefreshEnv : Type := mkRefreshEnv {
  stopAt : option Z;
  setTakes : Z -> N;
  timerWinsTie : bool
}.

Definition Second : Z := 1000000000.

(** [time.Second * time.Duration(serviceTTL/3)]. *)
Definition refreshInterval : Z := Second * (serviceTTL / 3).

Inductive Selected : Type :=
| TimerFired (t : Z)
| StopReceived (t : Z).

(** The [select] of [refreshService], entered at [now]: the timer of
    [time.After] can proceed at [now + refreshInterval], the receive from
    [stopChan] from the moment a value is on it; the arm that can proceed
    first is taken. *)
Definition selectRefresh (env : RefreshEnv) (now : Z) : Selected :=
  let timer := now + refreshInterval in
  match stopAt env with
  | None => TimerFired timer
  | Some ts =>
      let ready := Z.max now ts in
      if ready <? timer then StopReceived ready
      else if timer <? ready then TimerFired timer
      else if timerWinsTie env then TimerFired timer
      else StopReceived ready
  end.

Inductive RefreshEnd : Type :=
| StoppedAt (t : Z)
| StillRefreshing.

(** What a call on the plugin does: it returns, or it blocks on a channel. *)
Inductive Call (W : Type) : Type :=
| Returns (w : W) (err : option error)
| Blocks.
Arguments Returns {W} w err.
Arguments Blocks {W}.

Section Registry.

Context {Store : Type}.
Variable kapi : KeysAPI Store.

(** [json.Marshal] of a [ServiceInfo]. *)
Variable Marshal : ServiceInfo -> result string.

(** The plugin and what it has started: the store behind [kapi], the
    [serviceDb] table, the channels made so far with their buffered
    values, the renewal goroutines running. *)
Record World : Type := mkWorld {
  store : Store;
  serviceDb : gmap string serviceState;
  chans : gmap nat (list bool);
  refreshers : list Refresher
}.

(** The plugin after [Init]. *)
Definition initWorld (st : Store) : World := mkWorld st ∅ ∅ [].

(** [ch <- v] on a channel made with capacity 1: the value is buffered
    when there is room; otherwise the sender blocks. *)
Definition chanSend (cs : gmap nat (list bool)) (ch : nat) (v : bool)
  : option (gmap nat (list bool)) :=
  match cs !! ch with
  | Some buf =>
      if (length buf <? 1)%nat then Some (<[ch := buf ++ [v]]> cs) else None
  | None => None
  end.

(** [DeregisterService]. *)
Definition DeregisterService (w : World) (serviceInfo : ServiceInfo)
  : Call World :=
  let keyName := keyNameOf serviceInfo in
  match serviceDb w !! keyName with
  | None => Returns w (Some "Service not found")
  | Some srvState =>
      match chanSend (chans w) (stopChan srvState) true with
      | None => Blocks
      | Some chans' =>
          let db' := delete keyName (serviceDb w) in
          let '(store', err) := kDelete kapi (store w) keyName in
          Returns (mkWorld store' db' chans' (refreshers w)) err
      end
  end.

(** The first statement of [RegisterService]: a service registered under
    the key is de-registered; what [DeregisterService] returns is dropped.
    [None] when that call blocks. *)
Definition deregisterPrevious (w : World) (serviceInfo : ServiceInfo)
  : option World :=
  match serviceDb w !! keyNameOf serviceInfo with
  | Some _ =>
      match DeregisterService w serviceInfo with
      | Returns w' _ => Some w'
      | Blocks => None
      end
  | None => Some w
  end.

(** The world [RegisterService] goes on with once the previous
    registration of the key, if any, is out of the way: the signal is on
    its channel, its record is gone, the store's delete was called. *)
Definition cleared (w : World) (serviceInfo : ServiceInfo) : World :=
  match serviceDb w !! keyNameOf serviceInfo with
  | Some s =>
      mkWorld (kDelete kapi (store w) (keyNameOf serviceInfo)).1
        (delete (keyNameOf serviceInfo) (serviceDb w))
        (<[stopChan s := [true]]> (chans w)) (refreshers w)
  | None => w
  end.

(** [RegisterService]. *)
Definition RegisterService (w : World) (serviceInfo : ServiceInfo)
  : Call World :=
  let keyName := keyNameOf serviceInfo in
  match deregisterPrevious w serviceInfo with
  | None => Blocks
  | Some w1 =>
      match Marshal serviceInfo with
      | Err err => Returns w1 (Some err)
      | Ok jsonVal =>
          let '(store2, err) :=
            kSet kapi (store w1) keyName jsonVal {| TTL := serviceTTL |} in
          match err with
          | Some e =>
              Returns (mkWorld store2 (serviceDb w1) (chans w1)
                         (refreshers w1)) (Some e)
          | None =>
              let ch := fresh (dom (chans w1)) in
              Returns
                (mkWorld store2
                   (<[keyName :=
                        mkServiceState (ServiceName serviceInfo)
                          (HostAddr serviceInfo) (Port serviceInfo) ch]>
                      (serviceDb w1))
                   (<[ch := []]> (chans w1))
                   (refreshers w1 ++ [mkRefresher keyName jsonVal ch]))
                None
          end
      end
  end.

(** The timer arm of [refreshService], entered when the timer fired at
    [now]: one [Set], and a second one when the first failed. *)
Definition refreshCycle (env : RefreshEnv) (keyName keyVal : string)
  (st : Store) (now : Z) : Store * Z * list SetCall :=
  let opts := {| TTL := serviceTTL |} in
  let '(st1, err) := kSet kapi st keyName keyVal opts in
  let t1 := now + Z.of_N (setTakes env now) in
  let w1 := mkSetCall now keyName keyVal opts err in
  match err with
  | None => (st1, t1, [w1])
  | Some _ =>
      let '(st2, err2) := kSet kapi st1 keyName keyVal opts in
      let t2 := t1 + Z.of_N (setTakes env t1) in
      (st2, t2, [w1; mkSetCall t1 keyName keyVal opts err2])
  end.

(** [refreshService], followed for at most [fuel] passes of its loop:
    the timer cycles it went through, how it ended, and the store. *)
Fixpoint refreshService (fuel : nat) (env : RefreshEnv)
  (keyName keyVal : string) (st : Store) (now : Z)
  : list Cycle * RefreshEnd * Store :=
  match fuel with
  | O => ([], StillRefreshing, st)
  | S fuel' =>
      match selectRefresh env now with
      | StopReceived t => ([], StoppedAt t, st)
      | TimerFired t =>
          let '(st', now', ws) := refreshCycle env keyName keyVal st t in
          let '(cycles, fin, stEnd) :=
            refreshService fuel' env keyName keyVal st' now' in
          (mkCycle now t ws now' :: cycles, fin, stEnd)
      end
  end.

(** The write of a renewal: the key and value the loop was started
    with, and the time to live of the registration. *)
Definition renewalWrite (keyName keyVal : string) (t : Z)
  (err : option error) : SetCall :=
  mkSetCall t keyName keyVal {| TTL := serviceTTL |} err.

(** A cycle as the design has it: the timer fires one interval after the
    [select] is entered; one write follows, and when it fails one more,
    issued when the first returns, and no third. *)
Definition cycleAsDesigned (env : RefreshEnv) (keyName keyVal : string)
  (c : Cycle) : Prop :=
  fired c = entered c + refreshInterval
  /\ let t1 := fired c + Z.of_N (setTakes env (fired c)) in
     (writes c = [renewalWrite keyName keyVal (fired c) None]
      /\ finished c = t1)
     \/ (exists e err2,
            writes c = [renewalWrite keyName keyVal (fired c) (Some e);
                        renewalWrite keyName keyVal t1 err2]
            /\ finished c = t1 + Z.of_N (setTakes env t1)).

(** Each [select] is entered when the writes of the cycle before it have
    returned, the first one at [now]. *)
Fixpoint chained (now : Z) (cycles : list Cycle) : Prop :=
  match cycles with
  | [] => True
  | c :: rest => entered c = now /\ chained (finished c) rest
  end.

(** When the [select] after the given cycles is entered. *)
Fixpoint lastEntry (now : Z) (cycles : list Cycle) : Z :=
  match cycles with
  | [] => now
  | c :: rest => lastEntry (finished c) rest
  end.

(** What can happen to the plugin: a call of [RegisterService] or
    [DeregisterService], a renewal goroutine going through a timer cycle,
    a renewal goroutine receiving from its [stopChan] and returning. *)
Inductive PluginAction : Type :=
| ActRegister (serviceInfo : ServiceInfo)
| ActDeregister (serviceInfo : ServiceInfo)
| ActRefresh (i : nat) (env : RefreshEnv) (now : Z)
| ActStop (i : nat).

Definition step (w : World) (a : PluginAction) : option World :=
  match a with
  | ActRegister serviceInfo =>
      match RegisterService w serviceInfo with
      | Returns w' _ => Some w'
      | Blocks => None
      end
  | ActDeregister serviceInfo =>
      match DeregisterService w serviceInfo with
      | Returns w' _ => Some w'
      | Blocks => None
      end
  | ActRefresh i env now =>
      match refreshers w !! i with
      | Some r =>
          let '(st', _, _) :=
            refreshCycle env (rKeyName r) (rKeyVal r) (store w) now in
          Some (mkWorld st' (serviceDb w) (chans w) (refreshers w))
      | None => None
      end
  | ActStop i =>
      match refreshers w !! i with
      | Some r =>
          match chans w !! rStopChan r with
          | Some (_ :: buf) =>
              Some (mkWorld (store w) (serviceDb w)
                      (<[rStopChan r := buf]> (chans w))
                      (delete i (refreshers w)))
          | _ => None
          end
      | None => None
      end
  end.

Fixpoint run (w : World) (acts : list PluginAction) : option World :=
  match acts with
  | [] => Some w
  | a :: rest =>
      match step w a with
      | Some w' => run w' rest
      | None => None
      end
  end.

(** A renewal goroutine that has not been told to stop: nothing was
    sent on its [stopChan]. *)
Definition liveRefresher (w : World) (r : Refresher) : bool :=
  match chans w !! rStopChan r with
  | Some [] => true
  | _ => false
  end.

(** The renewal goroutines of a key that have not been told to stop. *)
Definition liveRefreshersOf (w : World) (keyName : string)
  : list Refresher :=
  filter (fun r => rKeyName r = keyName /\ liveRefresher w r = true)
    (refreshers w).

(** The records of the table that carry a given identity. *)
Definition registrationsOf (w : World) (serviceInfo : ServiceInfo)
  : list (string * serviceState) :=
  filter (fun kv =>
            stServiceName kv.2 = ServiceName serviceInfo
            /\ stHostAddr kv.2 = HostAddr serviceInfo
            /\ stPort kv.2 = Port serviceInfo)
    (map_to_list (serviceDb w)).

(** The identity a record of the table carries. *)
Definition infoOf (s : serviceState) : ServiceInfo :=
  mkServiceInfo (stServiceName s) (stHostAddr s) (stPort s).

(** What holds of the plugin between any two of its actions: a record
    sits at the key of its identity; its stop channel is empty and is the
    channel of a renewal goroutine of that key; a renewal goroutine whose
    channel is empty has its record in the table; the goroutines have
    channels of their own. *)
Record wfWorld (w : World) : Prop := mkWf {
  wf_key : forall k s, serviceDb w !! k = Some s -> keyNameOf (infoOf s) = k;
  wf_open : forall k s,
    serviceDb w !! k = Some s -> chans w !! stopChan s = Some [];
  wf_loop : forall k s,
    serviceDb w !! k = Some s ->
    exists v, mkRefresher k v (stopChan s) ∈ refreshers w;
  wf_live : forall r,
    r ∈ refreshers w -> chans w !! rStopChan r = Some [] ->
    exists s, serviceDb w !! rKeyName r = Some s
              /\ stopChan s = rStopChan r;
  wf_made : forall r,
    r ∈ refreshers w -> is_Some (chans w !! rStopChan r);
  wf_nodup : NoDup (rStopChan <$> refreshers w)
}.

End Registry.

(** ** A store and a codec to run the code on *)

Module MemStore.

(** A store in memory: its modification index, its keys with their
    values, whether the cluster can be reached, and how many more writes
    it will take before it stops answering them. *)
Record t : Type := mk {
  index : Z;
  entries : list (string * string);
  up : bool;
  budget : nat
}.

Definition unavailable : error :=
  "client: etcd cluster is unavailable or misconfigured".

Definition notFound (st : t) (key : string) : error :=
  "100: Key not found (" +:+ key +:+ ") [" +:+ Itoa (index st) +:+ "]".

Definition under (key : string) (kv : string * string) : bool :=
  HasPrefix kv.1 key.

Definition leaf (kv : string * string) : Node := mkNode kv.1 false kv.2 [].

Definition get (st : t) (key : string) (_ : GetOptions) : result Response :=
  if negb (up st) then Err unavailable
  else
    match List.filter (under key) (entries st) with
    | [] => Err (notFound st key)
    | kvs => Ok (mkResponse "get" (mkNode key true "" (map leaf kvs)) (index st))
    end.

Definition without (key : string) (kvs : list (string * string))
  : list (string * string) :=
  List.filter (fun kv => negb (String.eqb kv.1 key)) kvs.

Definition writable (st : t) : bool :=
  up st && negb (Nat.eqb (budget st) 0).

Definition written (st : t) (kvs : list (string * string)) : t :=
  mk ((index st + 1) mod 2 ^ 64) kvs true (Nat.pred (budget st)).

Definition set (st : t) (key val : string) (_ : SetOptions)
  : t * option error :=
  if negb (writable st) then (st, Some unavailable)
  else (written st (without key (entries st) ++ [(key, val)]), None).

Definition del (st : t) (key : string) : t * option error :=
  if negb (writable st) then (st, Some unavailable)
  else if forallb (fun kv => negb (String.eqb kv.1 key)) (entries st)
       then (st, Some (notFound st key))
       else (written st (without key (entries st)), None).

Definition watcher (st : t) (_ : string) (_ : WatcherOptions)
  : option Watcher :=
  if up st then Some [] else Some [Err unavailable].

Definition kapi : KeysAPI t :=
  {| kGet := get; kSet := set; kDelete := del; kWatcher := watcher;
     storeIndex := index |}.

(** A codec: the three fields, separated by commas. *)
Definition Marshal (serviceInfo : ServiceInfo) : result string :=
  Ok (ServiceName serviceInfo +:+ "," +:+ HostAddr serviceInfo +:+ ","
        +:+ Itoa (Port serviceInfo)).

Definition Unmarshal (s : string) : result ServiceInfo :=
  match Split s "," with
  | [name; host; port] =>
      match Atoi port with
      | (p, None) => Ok (mkServiceInfo name host p)
      | _ => Err "invalid port"
      end
  | _ => Err "unexpected end of input"
  end.

(** A codec that refuses every value. *)
Definition MarshalFails (_ : ServiceInfo) : result string :=
  Err "json: unsupported value".

Definition web : ServiceInfo := mkServiceInfo "web" "10.0.0.5" 8080.

Definition empty42 : t := mk 42 [] true 100.
Definition down42 : t := mk 42 [] false 100.
Definition oneWeb : t :=
  mk 7 [("/contiv.io/service/web/10.0.0.5:8080", "web,10.0.0.5,8080")]
    true 100.

(** A store that takes two more writes. *)
Definition twoWrites : t := mk 42 [] true 2.

(** The plugin once [web] is registered, on [empty42] and on
    [twoWrites]. *)
Definition webKey : string := "/contiv.io/service/web/10.0.0.5:8080".
Definition webVal : string := "web,10.0.0.5,8080".

Definition registered (st : t) : @World t :=
  mkWorld (mk 43 [(webKey, webVal)] true (Nat.pred (budget st)))
    {[ webKey := mkServiceState "web" "10.0.0.5" 8080 0 ]}
    {[ 0%nat := [] ]}
    [mkRefresher webKey webVal 0].

(** A renewal loop told to stop 25 seconds after its start, its writes
    taking a microsecond each. *)
Definition stopAfter25 : RefreshEnv :=
  mkRefreshEnv (Some (25 * Second)) (fun _ => 1000%N) true.

Definition renewalRun : list Cycle * RefreshEnd * t :=
  refreshService kapi 5 stopAfter25 webKey webVal empty42 0.

(** Watch responses. *)
Definition event (action key : string) : Response :=
  mkResponse action (mkNode key false "" []) 9.
Definition setWeb : Response :=
  event "set" "/contiv.io/service/web/10.0.0.5:8080".
Definition setHttpPort : Response :=
  event "set" "/contiv.io/service/web/10.0.0.5:http".
Definition setDeeper : Response :=
  event "set" "/contiv.io/service/web/10.0.0.5:8080/extra".
Definition setShallow : Response := event "set" "/contiv.io/service/web".

End MemStore.

(** ** Objects and directories (objdb/etcdClient.go) *)

Definition objPrefix : string := "/contiv.io/obj/".

(** What a nil options pointer stands for in the client: no option set. *)
Definition nilGetOptions : GetOptions := {| Recursive := false; Sort := false |}.
Definition nilSetOptions : SetOptions := {| TTL := 0 |}.

(** [recursAddNode]: the loop over the children of a node, with the list
    built so far ([lst], the [list] of the source); a file adds its value,
    a directory is gone into. *)
Fixpoint recursAddNode (node : Node) (lst : list string) : list string :=
  match node with
  | mkNode _ _ _ nodes =>
      (fix loop (inner : list Node) (lst : list string) : list string :=
         match inner with
         | [] => lst
         | innerNode :: rest =>
             loop rest
               (if negb (Dir innerNode) then lst ++ [Value innerNode]
                else recursAddNode innerNode lst)
         end) nodes lst
  end.

(** The values of the files below a node, left to right. *)
Fixpoint fileValues (node : Node) : list string :=
  match node with
  | mkNode _ _ _ nodes =>
      (fix each (inner : list Node) : list string :=
         match inner with
         | [] => []
         | innerNode :: rest =>
             (if negb (Dir innerNode) then [Value innerNode]
              else fileValues innerNode) ++ each rest
         end) nodes
  end.

Section Objects.

Context {Store : Type}.
Variable kapi : KeysAPI Store.

(** The codec at the type of the objects kept. *)
Context {A : Type}.
Variable MarshalObj : A -> result string.
Variable UnmarshalObj : string -> result A.

(** [GetObj]: the object read, or the error. *)
Definition GetObj (st : Store) (key : string) : result A :=
  let keyName := objPrefix +:+ key in
  match kGet kapi st keyName nilGetOptions with
  | Err err => Err err
  | Ok resp =>
      match UnmarshalObj (Value (RespNode resp)) with
      | Err err => Err err
      | Ok retVal => Ok retVal
      end
  end.

(** [ListDir]. *)
Definition ListDir (st : Store) (key : string)
  : list string * option error :=
  let keyName := objPrefix +:+ key in
  match kGet kapi st keyName {| Recursive := true; Sort := true |} with
  | Err _ => ([], None)
  | Ok resp =>
      if negb (Dir (RespNode resp))
      then ([], Some "Response is not directory")
      else (recursAddNode (RespNode resp) [], None)
  end.

(** [SetObj]. *)
Definition SetObj (st : Store) (key : string) (value : A)
  : Store * option error :=
  let keyName := objPrefix +:+ key in
  match MarshalObj value with
  | Err err => (st, Some err)
  | Ok jsonVal => kSet kapi st keyName jsonVal nilSetOptions
  end.

(** [DelObj]. *)
Definition DelObj (st : Store) (key : string) : Store * option error :=
  let keyName := objPrefix +:+ key in
  kDelete kapi st keyName.

End Objects.

(** ** The local address (objdb/etcdClient.go) *)

(** [member] and [memData]. *)
Record member : Type := mkMember {
  Name : string;
  ClientURLs : list string
}.

Record memData : Type := mkMemData { Members : list member }.

(** What a call that may index a slice does: it returns, or it panics. *)
Inductive Ran (A : Type) : Type :=
| Done (a : A)
| Panic.
Arguments Done {A} a.
Arguments Panic {A}.

(** The two loops of [GetLocalAddr] over the members and their client
    URLs: the first URL of the first member of the name that has one. *)
Fixpoint scanMembers (myName : string) (members : list member)
  : Ran (string * option error) :=
  match members with
  | [] => Done ("", Some "Address not found")
  | mem :: rest =>
      if String.eqb (Name mem) myName then
        match ClientURLs mem with
        | clientURL :: _ =>
            let hostStr := TrimPrefix clientURL "http://" in
            match Split hostStr ":" !! 0%nat with
            | Some hostAddr => Done (hostAddr, None)
            | None => Panic
            end
        | [] => scanMembers myName rest
        end
      else scanMembers myName rest
  end.

Section LocalAddr.

(** [http.Get] and the read of the body it returns. *)
Variable httpGet : string -> result (result string).

(** [json.Unmarshal] into the name of the endpoint and into [memData]. *)
Variable UnmarshalName : string -> result string.
Variable UnmarshalMembers : string -> result memData.

(** [httpGetJSON]. *)
Definition httpGetJSON {D : Type} (UnmarshalData : string -> result D)
  (url : string) : result D :=
  match httpGet url with
  | Err err => Err err
  | Ok res =>
      match res with
      | Err err => Err err
      | Ok body =>
          match UnmarshalData body with
          | Err err => Err err
          | Ok data => Ok data
          end
      end
  end.

(** [GetLocalAddr]. *)
Definition GetLocalAddr : Ran (string * option error) :=
  match httpGetJSON UnmarshalName "http://localhost:2379/v2/stats/self" with
  | Err _ => Done ("", Some "Error getting self state")
  | Ok myName =>
      match httpGetJSON UnmarshalMembers "http://localhost:2379/v2/members" with
      | Err _ => Done ("", Some "Error getting members state")
      | Ok memData => scanMembers myName (Members memData)
      end
  end.

End LocalAddr.

(** ** Decimal texts *)

(** The number a run of decimal digits stands for, read after digits that
    gave [n]. *)
Fixpoint uval (d : Decimal.uint) (n : Z) : Z :=
  match d with
  | Decimal.Nil => n
  | Decimal.D0 l => uval l (n * 10 + 0)
  | Decimal.D1 l => uval l (n * 10 + 1)
  | Decimal.D2 l => uval l (n * 10 + 2)
  | Decimal.D3 l => uval l (n * 10 + 3)
  | Decimal.D4 l => uval l (n * 10 + 4)
  | Decimal.D5 l => uval l (n * 10 + 5)
  | Decimal.D6 l => uval l (n * 10 + 6)
  | Decimal.D7 l => uval l (n * 10 + 7)
  | Decimal.D8 l => uval l (n * 10 + 8)
  | Decimal.D9 l => uval l (n * 10 + 9)
  end.

(** ** What a watch response is translated to *)

(** The events the handler sends for a watch response. *)
Definition translate (watchResp : Response) : list WatchServiceEvent :=
  match handleWatchResp watchResp with
  | Sends evs => evs
  | Panics => []
  end.

(** A node whose value decodes to an instance. *)
Definition decodes (Unmarshal : string -> result ServiceInfo) (node : Node)
  (srvInfo : ServiceInfo) : Prop :=
  Unmarshal (Value node) = Ok srvInfo.

(** ** What the renewal goroutines were started with *)

(** The goroutine of a record writes the serialization of the record's
    identity. *)
Definition valuesRecorded {Store : Type}
  (Marshal : ServiceInfo -> result string) (w : @World Store) : Prop :=
  forall k s v,
    serviceDb w !! k = Some s ->
    mkRefresher k v (stopChan s) ∈ refreshers w ->
    Marshal (infoOf s) = Ok v.

(** ** A store of objects to run the code on *)

Module ObjStore.

(** Keys with their values, the last written first. *)
Definition t : Type := list (string * string).

Fixpoint find (key : string) (st : t) : option string :=
  match st with
  | [] => None
  | (k, v) :: rest => if String.eqb k key then Some v else find key rest
  end.

Definition get (st : t) (key : string) (_ : GetOptions) : result Response :=
  match find key st with
  | Some v => Ok (mkResponse "get" (mkNode key false v []) 0)
  | None => Err "100: Key not found"
  end.

Definition set (st : t) (key val : string) (_ : SetOptions)
  : t * option error :=
  ((key, val) :: st, None).

Definition del (st : t) (key : string) : t * option error :=
  match find key st with
  | Some _ => (List.filter (fun kv => negb (String.eqb kv.1 key)) st, None)
  | None => (st, Some "100: Key not found")
  end.

Definition kapi : KeysAPI t :=
  {| kGet := get; kSet := set; kDelete := del;
     kWatcher := fun _ _ _ => None; storeIndex := fun _ => 0 |}.

(** A directory as the store answers a recursive read: two files, and a
    directory with a file in it between them. *)
Definition tree : Node :=
  mkNode "/contiv.io/obj/nets" true ""
    [mkNode "/contiv.io/obj/nets/a" false "A" [];
     mkNode "/contiv.io/obj/nets/sub" true "hidden"
       [mkNode "/contiv.io/obj/nets/sub/b" false "B" []];
     mkNode "/contiv.io/obj/nets/c" false "C" []].

(** The members of a cluster. *)
Definition cluster : list member :=
  [mkMember "node2" ["http://10.0.0.2:2379"];
   mkMember "node1" [];
   mkMember "node1" ["http://10.0.0.1:2379"; "http://127.0.0.1:2379"]].

Definition secured : list member :=
  [mkMember "node1" ["https://10.0.0.1:2379"]].

End ObjStore.

(** ** Watchers to run the watch goroutines on *)

Module WatchStore.


Definition expireWeb : Response :=
  MemStore.event "expire" "/contiv.io/service/web/10.0.0.5:8080".


(** The response of [MemStore.oneWeb] to the read of the service. *)
Definition oneWebResponse : Response :=
  mkResponse "get"
    (mkNode "/contiv.io/service/web/" true ""
       [mkNode MemStore.webKey false MemStore.webVal []]) 7.

Definition db : ServiceInfo := mkServiceInfo "db" "10.0.0.6" 5432.

(** A renewal loop that is never told to stop. *)
Definition neverStopped : RefreshEnv :=
  mkRefreshEnv None (fun _ => 1000%N) true.

(** A codec of texts: a text is its own serialization. *)
Definition asText (s : string) : result string := Ok s.

End WatchStore.

(** ** The renewal writes and the store *)

Section RenewalStore.

Context {Store : Type}.
Variable kapi : KeysAPI Store.

(** The cycles of a renewal loop against the store it started on: the
    first write of a cycle is [kapi.Set] on the store as the cycle finds
    it, logged with what [Set] answered; when it answered an error, and
    only then, a second [Set] of the same key, value and options follows on
    the store the first one left, at the time the first one returned; the
    next cycle finds the store the last [Set] left, and [stEnd] is the
    store after the last cycle. *)
Fixpoint storeThreaded (env : RefreshEnv) (keyName keyVal : string)
  (st : Store) (cycles : list Cycle) (stEnd : Store) : Prop :=
  match cycles with
  | [] => stEnd = st
  | c :: rest =>
      let first := kSet kapi st keyName keyVal {| TTL := serviceTTL |} in
      match first.2 with
      | None =>
          writes c = [renewalWrite keyName keyVal (fired c) None]
          /\ storeThreaded env keyName keyVal first.1 rest stEnd
      | Some e =>
          let t1 := fired c + Z.of_N (setTakes env (fired c)) in
          let again :=
            kSet kapi first.1 keyName keyVal {| TTL := serviceTTL |} in
          writes c = [renewalWrite keyName keyVal (fired c) (Some e);
                      renewalWrite keyName keyVal t1 again.2]
          /\ storeThreaded env keyName keyVal again.1 rest stEnd
      end
  end.

End RenewalStore.

(** ** Identities that share a key, and slow writes *)

Module Shared.

(** Two identities with the key [/contiv.io/service/a/b/c:1]. *)
Definition slashed : ServiceInfo := mkServiceInfo "a/b" "c" 1.
Definition twin : ServiceInfo := mkServiceInfo "a" "b/c" 1.

Definition sharedKey : string := "/contiv.io/service/a/b/c:1".

(** The plugin once [slashed] is registered on [MemStore.empty42]. *)
Definition registeredSlashed : @World MemStore.t :=
  mkWorld (MemStore.mk 43 [(sharedKey, "a/b,c,1")] true 99)
    {[ sharedKey := mkServiceState "a/b" "c" 1 0 ]}
    {[ 0%nat := [] ]}
    [mkRefresher sharedKey "a/b,c,1" 0].

(** A renewal loop told to stop 11 seconds after its start, on a store
    that cannot be reached and takes 50 seconds to say so. *)
Definition slowWrites : RefreshEnv :=
  mkRefreshEnv (Some (11 * Second)) (fun _ => 50000000000%N) true.

Definition slowRun : list Cycle * RefreshEnd * MemStore.t :=
  refreshService MemStore.kapi 5 slowWrites MemStore.webKey MemStore.webVal
    MemStore.down42 0.

End Shared.

(** * Properties *)

(** ** Keys and identities *)

Section KeyFacts.

Lemma append_cancel_l (s a b : string) : s +:+ a = s +:+ b -> a = b.
Proof. induction s as [|x s IH]; cbn; [easy|]. intros [= H]. auto. Qed.

(** Two texts cut at the first occurrence of a byte that neither has before
    the cut are cut at the same place. *)
Lemma append_cut (c : ascii) (a1 a2 r1 r2 : string) :
  hasByte c a1 = false -> hasByte c a2 = false ->
  a1 +:+ String c r1 = a2 +:+ String c r2 -> a1 = a2 /\ r1 = r2.
Proof.
  revert a2. induction a1 as [|x a1 IH]; intros [|y a2]; cbn.
  - intros _ _ [= ->]. now split.
  - intros _ [Hy _]%orb_false_elim [= -> _].
    now rewrite Ascii.eqb_refl in Hy.
  - intros [Hx _]%orb_false_elim _ [= -> _].
    now rewrite Ascii.eqb_refl in Hx.
  - intros [_ H1]%orb_false_elim [_ H2]%orb_false_elim [= -> Heq].
    destruct (IH a2 H1 H2 Heq) as [-> ->]. now split.
Qed.

Lemma to_int_proper (z : Z) :
  Z.to_int z <> Decimal.Pos Decimal.Nil /\ Z.to_int z <> Decimal.Neg Decimal.Nil.
Proof.
  rewrite <- (DecimalZ.of_to z), DecimalZ.to_of.
  destruct (Z.to_int z) as [d|d]; unfold Decimal.norm, Decimal.unorm;
    destruct (Decimal.nzhead d); split; discriminate.
Qed.

Lemma Itoa_inj (a b : Z) : Itoa a = Itoa b -> a = b.
Proof.
  unfold Itoa. intros H.
  apply (f_equal NilZero.int_of_string) in H.
  destruct (to_int_proper a) as [Ha1 Ha2], (to_int_proper b) as [Hb1 Hb2].
  rewrite !NilZero.isi in H by assumption.
  injection H as H. apply (f_equal Z.of_int) in H.
  now rewrite !DecimalZ.of_to in H.
Qed.

(** Identities whose service name has no slash and whose host has no colon
    have keys of their own. *)
Lemma keyNameOf_inj (a b : ServiceInfo) :
  hasByte "/" (ServiceName a) = false -> hasByte "/" (ServiceName b) = false ->
  hasByte ":" (HostAddr a) = false -> hasByte ":" (HostAddr b) = false ->
  keyNameOf a = keyNameOf b -> a = b.
Proof.
  intros Ha Hb Hha Hhb Hkey. unfold keyNameOf in Hkey.
  apply append_cancel_l in Hkey.
  apply (append_cut "/" _ _ _ _ Ha Hb) in Hkey as [Hn Hkey].
  apply (append_cut ":" _ _ _ _ Hha Hhb) in Hkey as [Hh Hp].
  apply Itoa_inj in Hp. destruct a, b. cbn in *. congruence.
Qed.

End KeyFacts.

(** ** The snapshot loader *)

Section SnapshotFacts.

Context {Store : Type}.
Variable kapi : KeysAPI Store.
Variable Unmarshal : string -> result ServiceInfo.

Lemma getServiceState_on_error st key err :
  kGet kapi st key snapshotOptions = Err err ->
  getServiceState kapi Unmarshal st key =
    if Contains err "Key not found" then (0, [], None)
    else (0, [], Some err).
Proof. intros Hget. unfold getServiceState. now rewrite Hget. Qed.

Lemma getServiceState_on_response st key resp :
  kGet kapi st key snapshotOptions = Ok resp ->
  forall watchIndex srvcList,
    getServiceState kapi Unmarshal st key = (watchIndex, srvcList, None) ->
    watchIndex = (Index resp + 1) mod 2 ^ 64.
Proof.
  intros Hget watchIndex srvcList. unfold getServiceState.
  rewrite Hget.
  destruct (negb (Dir (RespNode resp))); [discriminate|].
  destruct (parseNodes Unmarshal (Nodes (RespNode resp)) []);
    [|discriminate].
  intros [= <- _]. reflexivity.
Qed.

(** A failed snapshot sends nothing: [initServiceState] returns before
    its loop over the instances. *)
Lemma initServiceState_on_error st key e :
  (getServiceState kapi Unmarshal st key).2 = Some e ->
  initServiceState kapi Unmarshal st key =
    ((getServiceState kapi Unmarshal st key).1.1, Some e, []).
Proof.
  unfold initServiceState.
  destruct (getServiceState kapi Unmarshal st key) as [[mIndex l] err].
  simpl. now intros ->.
Qed.

(** C2, as amended: on a "key not found" error of the store the read
    reports no error and returns the empty list, with index 0 (whatever
    the store's index is). *)
Theorem key_not_found_reads_empty_at_zero st key err :
  kGet kapi st key snapshotOptions = Err err ->
  Contains err "Key not found" = true ->
  getServiceState kapi Unmarshal st key = (0, [], None).
Proof.
  intros Hget Hnf. rewrite (getServiceState_on_error _ _ _ Hget).
  now rewrite Hnf.
Qed.

(** C8, as amended: a snapshot read that reports no error either got a
    response from the store, and then returns the store's index plus one
    in 64 bits (plus one exactly, below the largest index), or met "key
    not found", and then returns index 0 and no instance. *)
Theorem resume_index_of_read st key watchIndex srvcList :
  read_reports_index kapi st key snapshotOptions ->
  getServiceState kapi Unmarshal st key = (watchIndex, srvcList, None) ->
  (exists resp,
      kGet kapi st key snapshotOptions = Ok resp
      /\ watchIndex = (storeIndex kapi st + 1) mod 2 ^ 64
      /\ (0 <= storeIndex kapi st < 2 ^ 64 - 1 ->
          watchIndex = storeIndex kapi st + 1))
  \/ (exists err,
         kGet kapi st key snapshotOptions = Err err
         /\ Contains err "Key not found" = true
         /\ watchIndex = 0 /\ srvcList = []).
Proof.
  intros Hidx Hread.
  destruct (kGet kapi st key snapshotOptions) as [resp|err] eqn:Hget.
  - left. exists resp. split; [reflexivity|].
    pose proof (getServiceState_on_response _ _ _ Hget _ _ Hread) as ->.
    rewrite (Hidx resp Hget). split; [reflexivity|].
    intros Hrange. apply Z.mod_small. lia.
  - right. exists err. split; [reflexivity|].
    rewrite (getServiceState_on_error _ _ _ Hget) in Hread.
    destruct (Contains err "Key not found"); [|discriminate].
    now injection Hread as <- <-.
Qed.

(** C1, as amended: when the snapshot fails the first goroutine of a
    watch sends no event at all, opens no watch, forwards nothing, and
    ends the process through [log.Fatalf]. *)
Theorem failed_snapshot_is_fatal st keyName e :
  (getServiceState kapi Unmarshal st keyName).2 = Some e ->
  watchThread kapi Unmarshal st keyName = mkWatchRun [] None [] Fatal.
Proof.
  intros Herr. unfold watchThread.
  now rewrite (initServiceState_on_error _ _ _ Herr).
Qed.

End SnapshotFacts.

Lemma key_not_found_reads_empty_at_zero_witness :
  getServiceState MemStore.kapi MemStore.Unmarshal MemStore.empty42
    (serviceKey "web") = (0, [], None).
Proof.
  apply (key_not_found_reads_empty_at_zero MemStore.kapi MemStore.Unmarshal
           MemStore.empty42 (serviceKey "web")
           "100: Key not found (/contiv.io/service/web/) [42]");
    reflexivity.
Defined.

(** C2, as stated, fails: the store is at index 42, the read returns 0. *)
Lemma key_not_found_index_is_not_store_index :
  kGet MemStore.kapi MemStore.empty42 (serviceKey "web") snapshotOptions
    = Err "100: Key not found (/contiv.io/service/web/) [42]"
  /\ storeIndex MemStore.kapi MemStore.empty42 = 42
  /\ getServiceState MemStore.kapi MemStore.Unmarshal MemStore.empty42
       (serviceKey "web")
     <> (storeIndex MemStore.kapi MemStore.empty42, [], None).
Proof. repeat split. vm_compute. discriminate. Qed.

Lemma resume_index_of_read_witness :
  (exists resp,
      kGet MemStore.kapi MemStore.oneWeb (serviceKey "web") snapshotOptions
        = Ok resp
      /\ 8 = (storeIndex MemStore.kapi MemStore.oneWeb + 1) mod 2 ^ 64
      /\ (0 <= storeIndex MemStore.kapi MemStore.oneWeb < 2 ^ 64 - 1 ->
          8 = storeIndex MemStore.kapi MemStore.oneWeb + 1))
  \/ (exists err,
         kGet MemStore.kapi MemStore.oneWeb (serviceKey "web")
           snapshotOptions = Err err
         /\ Contains err "Key not found" = true
         /\ 8 = 0 /\ [MemStore.web] = []).
Proof.
  apply (resume_index_of_read MemStore.kapi MemStore.Unmarshal
           MemStore.oneWeb (serviceKey "web") 8 [MemStore.web]).
  - intros resp Hget. vm_compute in Hget. injection Hget as <-. reflexivity.
  - reflexivity.
Defined.

(** C8, as stated, fails: a read that reports no error, on a store at
    index 42, returns 0 and not 43. *)
Lemma successful_read_index_is_not_successor :
  (getServiceState MemStore.kapi MemStore.Unmarshal MemStore.empty42
     (serviceKey "web")).2 = None
  /\ storeIndex MemStore.kapi MemStore.empty42 = 42
  /\ (getServiceState MemStore.kapi MemStore.Unmarshal MemStore.empty42
        (serviceKey "web")).1.1 = 0
  /\ (getServiceState MemStore.kapi MemStore.Unmarshal MemStore.empty42
        (serviceKey "web")).1.1
     <> storeIndex MemStore.kapi MemStore.empty42 + 1.
Proof. repeat split. vm_compute. discriminate. Qed.

Lemma failed_snapshot_is_fatal_witness :
  watchThread MemStore.kapi MemStore.Unmarshal MemStore.down42
    (serviceKey "web") = mkWatchRun [] None [] Fatal.
Proof.
  apply (failed_snapshot_is_fatal MemStore.kapi MemStore.Unmarshal
           MemStore.down42 (serviceKey "web") MemStore.unavailable).
  reflexivity.
Defined.

(** C1, as stated, fails: the snapshot fails and no error event is sent. *)
Lemma failed_snapshot_sends_no_error_event :
  (getServiceState MemStore.kapi MemStore.Unmarshal MemStore.down42
     (serviceKey "web")).2 = Some MemStore.unavailable
  /\ emitted (watchThread MemStore.kapi MemStore.Unmarshal MemStore.down42
                (serviceKey "web")) = []
  /\ emitted (watchThread MemStore.kapi MemStore.Unmarshal MemStore.down42
                (serviceKey "web")) <> [errorEvent].
Proof. repeat split. vm_compute. discriminate. Qed.

(** ** The event translator *)

Section TranslatorFacts.

(** The handler is the key parser followed by the dispatch on the
    action; none of its slice accesses is out of range. *)
Lemma handleWatchResp_parse watchResp :
  handleWatchResp watchResp =
    match parseServiceKey (Key (RespNode watchResp)) with
    | Some srvInfo => Sends (eventsFor (Action watchResp) srvInfo)
    | None => Sends []
    end.
Proof.
  unfold handleWatchResp, parseServiceKey, eventsFor.
  destruct (Split (TrimPrefix (Key (RespNode watchResp)) servicePrefix) "/")
    as [|srvName [|hostAddr tl]]; try reflexivity.
  cbn [length Nat.ltb Nat.leb lookup list_lookup].
  destruct (Split hostAddr ":") as [|host [|portStr [|x tl']]];
    try reflexivity.
  cbn [length Nat.eqb negb lookup list_lookup fst].
  destruct (Atoi portStr) as [portNum e]. cbn [fst].
  destruct (String.eqb (Action watchResp) "set"); [reflexivity|].
  now destruct (String.eqb (Action watchResp) "delete"
                || String.eqb (Action watchResp) "expire").
Qed.

Lemma handleWatchResp_never_panics watchResp :
  handleWatchResp watchResp <> Panics.
Proof.
  rewrite handleWatchResp_parse.
  now destruct (parseServiceKey (Key (RespNode watchResp))).
Qed.

Lemma handlerLoop_never_panics inputs :
  (handlerLoop inputs).2 <> Panicked.
Proof.
  induction inputs as [|[watchResp|[|]] rest IH]; cbn [handlerLoop];
    try easy.
  pose proof (handleWatchResp_never_panics watchResp) as Hnp.
  destruct (handleWatchResp watchResp) as [evs|]; [|congruence].
  now destruct (handlerLoop rest) as [[more cancelled] fin].
Qed.

Lemma handlerLoop_sends watchResp evs rest :
  handleWatchResp watchResp = Sends evs ->
  handlerLoop (FromWatch watchResp :: rest) =
    (evs ++ (handlerLoop rest).1.1, (handlerLoop rest).1.2,
     (handlerLoop rest).2).
Proof.
  intros H. cbn [handlerLoop]. rewrite H.
  now destruct (handlerLoop rest) as [[more cancelled] fin].
Qed.

(** Which keys the parser refuses: fewer than two segments after the
    prefix, or a second segment that a colon does not split in two. *)
Lemma parseServiceKey_None key :
  parseServiceKey key = None <->
  (length (Split (TrimPrefix key servicePrefix) "/") < 2)%nat
  \/ exists hostAddr,
      Split (TrimPrefix key servicePrefix) "/" !! 1%nat = Some hostAddr
      /\ length (Split hostAddr ":") <> 2%nat.
Proof.
  unfold parseServiceKey.
  destruct (Split (TrimPrefix key servicePrefix) "/")
    as [|srvName [|hostAddr tl]]; cbn [length lookup list_lookup].
  - split; [left; lia|reflexivity].
  - split; [left; lia|reflexivity].
  - destruct (Split hostAddr ":") as [|host [|portStr [|x tl']]] eqn:Hs.
    + split; [|reflexivity]. intros _. right. exists hostAddr.
      rewrite Hs. now split.
    + split; [|reflexivity]. intros _. right. exists hostAddr.
      rewrite Hs. now split.
    + split; [discriminate|]. intros [Hlen|(h & [= <-] & Hlen)]; [lia|].
      rewrite Hs in Hlen. now cbn in Hlen.
    + split; [|reflexivity]. intros _. right. exists hostAddr.
      rewrite Hs. split; [reflexivity|]. cbn. lia.
Qed.

(** C3, as amended: a watch event whose key the parser refuses (fewer
    than two segments after the service prefix, or a second segment that
    is not split in two by a colon) makes the handler send no event, the
    loop goes on as if the event had not been received, and it does not
    panic. A port that is not a number is not a refusal. *)
Theorem unparsed_key_is_skipped (before after : list HandlerInput)
  (watchResp : Response) :
  parseServiceKey (Key (RespNode watchResp)) = None ->
  handleWatchResp watchResp = Sends []
  /\ handlerLoop (before ++ FromWatch watchResp :: after)
     = handlerLoop (before ++ after)
  /\ (handlerLoop (before ++ FromWatch watchResp :: after)).2 <> Panicked.
Proof.
  intros Hparse.
  assert (Hskip : handleWatchResp watchResp = Sends [])
    by (now rewrite handleWatchResp_parse, Hparse).
  split; [exact Hskip|]. split; [|apply handlerLoop_never_panics].
  induction before as [|[r|[|]] before IH]; cbn [app handlerLoop].
  - rewrite Hskip. now destruct (handlerLoop after) as [[more c] fin].
  - now rewrite IH.
  - reflexivity.
  - exact IH.
Qed.


End TranslatorFacts.

Lemma unparsed_key_is_skipped_witness :
  handleWatchResp MemStore.setShallow = Sends []
  /\ handlerLoop ([FromWatch MemStore.setWeb]
                    ++ FromWatch MemStore.setShallow :: [FromStop true])
     = handlerLoop ([FromWatch MemStore.setWeb] ++ [FromStop true])
  /\ (handlerLoop ([FromWatch MemStore.setWeb]
                     ++ FromWatch MemStore.setShallow :: [FromStop true])).2
     <> Panicked.
Proof.
  apply (unparsed_key_is_skipped [FromWatch MemStore.setWeb] [FromStop true]
           MemStore.setShallow).
  reflexivity.
Defined.

(** C3, as stated, fails: the port of the key is not a number, and the
    handler sends an Added event with port 0; so it does for a key with a
    segment too many. *)
Lemma non_numeric_port_is_translated :
  (Atoi "http").2 = Some ErrSyntax
  /\ handleWatchResp MemStore.setHttpPort
     = Sends [addEvent (mkServiceInfo "web" "10.0.0.5" 0)]
  /\ handleWatchResp MemStore.setDeeper = Sends [addEvent MemStore.web]
  /\ handleWatchResp MemStore.setHttpPort <> Sends [].
Proof. repeat split. vm_compute. discriminate. Qed.


(** ** The registration table *)

Section ListFacts.

Context {A B : Type} (f : A -> B).

Lemma NoDup_fmap_elem_inj (l : list A) x y :
  NoDup (f <$> l) -> x ∈ l -> y ∈ l -> f x = f y -> x = y.
Proof.
  induction l as [|a l IH]; cbn [fmap list_fmap]; intros Hnd Hx Hy Hf.
  - now apply elem_of_nil in Hx.
  - apply NoDup_cons in Hnd as [Hna Hnd].
    apply elem_of_cons in Hx as [-> | Hx], Hy as [-> | Hy]; auto.
    + exfalso. apply Hna. rewrite Hf. now apply list_elem_of_fmap_2.
    + exfalso. apply Hna. rewrite <- Hf. now apply list_elem_of_fmap_2.
Qed.

Lemma filter_length_le_1 (P : A -> Prop) `{!forall x, Decision (P x)}
  (l : list A) (c : B) :
  NoDup (f <$> l) -> (forall x, x ∈ l -> P x -> f x = c) ->
  (length (filter P l) <= 1)%nat.
Proof.
  induction l as [|a l IH]; cbn [fmap list_fmap]; intros Hnd Hc;
    [cbn; lia|].
  apply NoDup_cons in Hnd as [Hna Hnd].
  assert (Hl : forall x, x ∈ l -> P x -> f x = c)
    by (intros x Hx; apply Hc; now right).
  rewrite filter_cons. destruct (decide (P a)) as [Ha|Ha]; [|now apply IH].
  destruct (filter P l) as [|x tl] eqn:Hflt; [cbn; lia|].
  exfalso. assert (Hx : x ∈ filter P l) by (rewrite Hflt; left).
  apply list_elem_of_filter in Hx as [HPx Hx].
  apply Hna. rewrite (Hc a (list_elem_of_here _ _) Ha), <- (Hl x Hx HPx).
  now apply list_elem_of_fmap_2.
Qed.

Lemma elem_of_delete_other (l : list A) i r x :
  l !! i = Some r -> x ∈ l -> f x <> f r -> x ∈ delete i l.
Proof.
  intros Hi Hx Hne. rewrite delete_take_drop.
  rewrite <- (take_drop_middle l i r Hi) in Hx.
  apply elem_of_app in Hx as [Hx|Hx]; [apply elem_of_app; now left|].
  apply elem_of_cons in Hx as [-> | Hx]; [congruence|].
  apply elem_of_app; now right.
Qed.

Lemma NoDup_fmap_delete (l : list A) i r :
  l !! i = Some r -> NoDup (f <$> l) ->
  NoDup (f <$> delete i l)
  /\ forall x, x ∈ delete i l -> f x <> f r.
Proof.
  intros Hi Hnd. rewrite delete_take_drop.
  rewrite <- (take_drop_middle l i r Hi), fmap_app, fmap_cons in Hnd.
  apply NoDup_app in Hnd as (Hnd1 & Hdisj & Hnd2).
  apply NoDup_cons in Hnd2 as [Hr Hnd2].
  split.
  - rewrite fmap_app. apply NoDup_app. repeat split; auto.
    intros y Hy1 Hy2. apply (Hdisj y Hy1). now right.
  - intros x Hx Heq. apply elem_of_app in Hx as [Hx|Hx].
    + apply (Hdisj (f r)); [rewrite <- Heq; now apply list_elem_of_fmap_2|].
      left.
    + apply Hr. rewrite <- Heq. now apply list_elem_of_fmap_2.
Qed.

End ListFacts.

Section RegistryFacts.

Context {Store : Type}.
Variable kapi : KeysAPI Store.
Variable Marshal : ServiceInfo -> result string.

Implicit Types (w : @World Store) (st : Store).

Lemma infoOf_mk serviceInfo ch :
  infoOf (mkServiceState (ServiceName serviceInfo) (HostAddr serviceInfo)
            (Port serviceInfo) ch) = serviceInfo.
Proof. now destruct serviceInfo. Qed.

Lemma wf_init (st : Store) : wfWorld (initWorld st).
Proof.
  split; cbn.
  - intros k s H. now rewrite lookup_empty in H.
  - intros k s H. now rewrite lookup_empty in H.
  - intros k s H. now rewrite lookup_empty in H.
  - intros r H. now apply elem_of_nil in H.
  - intros r H. now apply elem_of_nil in H.
  - constructor.
Qed.

(** Writing to the store touches nothing of the plugin's own. *)
Lemma wf_store w st' :
  wfWorld w ->
  wfWorld (mkWorld st' (serviceDb w) (chans w) (refreshers w)).
Proof. intros [? ? ? ? ? ?]. now split. Qed.

(** Two records of the table do not share a stop channel. *)
Lemma wf_chan_inj w k1 k2 s1 s2 :
  wfWorld w ->
  serviceDb w !! k1 = Some s1 -> serviceDb w !! k2 = Some s2 ->
  stopChan s1 = stopChan s2 -> k1 = k2.
Proof.
  intros Hwf H1 H2 Heq.
  destruct (wf_loop _ Hwf _ _ H1) as [v1 Hr1].
  destruct (wf_loop _ Hwf _ _ H2) as [v2 Hr2].
  pose proof (NoDup_fmap_elem_inj rStopChan _ _ _ (wf_nodup _ Hwf) Hr1 Hr2 Heq)
    as Hrr.
  now injection Hrr.
Qed.

(** Sending the stop signal and dropping the record. *)
Lemma wf_signal w k s st' :
  wfWorld w -> serviceDb w !! k = Some s ->
  wfWorld (mkWorld st' (delete k (serviceDb w))
             (<[stopChan s := [true]]> (chans w)) (refreshers w)).
Proof.
  intros Hwf Hk. split; cbn.
  - intros k' s' [_ H]%lookup_delete_Some. now apply (wf_key _ Hwf).
  - intros k' s' [Hne H]%lookup_delete_Some.
    rewrite lookup_insert_ne; [now apply (wf_open _ Hwf _ _ H)|].
    intros Heq. apply Hne. now apply (wf_chan_inj w k k' s s').
  - intros k' s' [_ H]%lookup_delete_Some. now apply (wf_loop _ Hwf).
  - intros r Hr Hch.
    destruct (decide (stopChan s = rStopChan r)) as [Heq|Hne].
    { rewrite Heq, lookup_insert_eq in Hch. discriminate. }
    rewrite lookup_insert_ne in Hch by exact Hne.
    destruct (wf_live _ Hwf _ Hr Hch) as (s' & Hs' & Hc).
    exists s'. split; [|exact Hc].
    apply lookup_delete_Some. split; [|exact Hs'].
    intros Heq. rewrite <- Heq, Hk in Hs'. injection Hs' as <-.
    congruence.
  - intros r Hr. apply lookup_insert_is_Some'. right.
    now apply (wf_made _ Hwf).
  - apply (wf_nodup _ Hwf).
Qed.

(** Recording a new registration with a channel and a goroutine of its
    own, at a key that has none. *)
Lemma wf_spawn w serviceInfo v st' :
  wfWorld w -> serviceDb w !! keyNameOf serviceInfo = None ->
  let ch := fresh (dom (chans w)) in
  wfWorld
    (mkWorld st'
       (<[keyNameOf serviceInfo :=
            mkServiceState (ServiceName serviceInfo) (HostAddr serviceInfo)
              (Port serviceInfo) ch]> (serviceDb w))
       (<[ch := []]> (chans w))
       (refreshers w ++ [mkRefresher (keyNameOf serviceInfo) v ch])).
Proof.
  intros Hwf Hk ch.
  assert (Hfresh : chans w !! ch = None)
    by (apply not_elem_of_dom, is_fresh).
  assert (Hold : forall r, r ∈ refreshers w -> rStopChan r <> ch).
  { intros r Hr Heq. destruct (wf_made _ Hwf _ Hr) as [b Hb].
    rewrite Heq in Hb. congruence. }
  split; cbn.
  - intros k' s' [[<- <-]|[_ H]]%lookup_insert_Some.
    + now rewrite infoOf_mk.
    + now apply (wf_key _ Hwf).
  - intros k' s' [[<- <-]|[_ H]]%lookup_insert_Some; cbn.
    + apply lookup_insert_eq.
    + pose proof (wf_open _ Hwf _ _ H) as Ho.
      rewrite lookup_insert_ne; [exact Ho|]. intros Heq.
      rewrite <- Heq in Ho. congruence.
  - intros k' s' [[<- <-]|[_ H]]%lookup_insert_Some; cbn.
    + exists v. apply elem_of_app. right. left.
    + destruct (wf_loop _ Hwf _ _ H) as [v' Hv']. exists v'.
      apply elem_of_app. now left.
  - intros r [Hr|Hr%list_elem_of_singleton]%elem_of_app Hch.
    + rewrite lookup_insert_ne in Hch by (intros Heq; now apply (Hold r)).
      destruct (wf_live _ Hwf _ Hr Hch) as (s' & Hs' & Hc).
      exists s'. split; [|exact Hc].
      rewrite lookup_insert_ne; [exact Hs'|]. intros Heq.
      rewrite <- Heq in Hs'. congruence.
    + subst r. cbn. eexists. split; [apply lookup_insert_eq|reflexivity].
  - intros r [Hr|Hr%list_elem_of_singleton]%elem_of_app.
    + apply lookup_insert_is_Some'. right. now apply (wf_made _ Hwf).
    + subst r. cbn. apply lookup_insert_is_Some'. now left.
  - rewrite fmap_app. apply NoDup_app. repeat split.
    + apply (wf_nodup _ Hwf).
    + cbn. intros c [r [-> Hr]]%list_elem_of_fmap_1 Hc%list_elem_of_singleton.
      now apply (Hold r).
    + cbn. apply NoDup_singleton.
Qed.

(** A renewal goroutine taking the signal off its channel and returning. *)
Lemma wf_exit w i r v buf :
  wfWorld w -> refreshers w !! i = Some r ->
  chans w !! rStopChan r = Some (v :: buf) ->
  wfWorld (mkWorld (store w) (serviceDb w)
             (<[rStopChan r := buf]> (chans w)) (delete i (refreshers w))).
Proof.
  intros Hwf Hi Hch.
  destruct (NoDup_fmap_delete rStopChan _ _ _ Hi (wf_nodup _ Hwf))
    as [Hnd Hother].
  assert (Hdb : forall k s, serviceDb w !! k = Some s ->
                            stopChan s <> rStopChan r).
  { intros k s Hs Heq. pose proof (wf_open _ Hwf _ _ Hs) as Ho.
    rewrite Heq in Ho. congruence. }
  split; cbn.
  - apply (wf_key _ Hwf).
  - intros k s Hs. rewrite lookup_insert_ne.
    + now apply (wf_open _ Hwf _ _ Hs).
    + intros Heq. now apply (Hdb k s).
  - intros k s Hs. destruct (wf_loop _ Hwf _ _ Hs) as [v' Hv'].
    exists v'. apply (elem_of_delete_other rStopChan _ _ r); auto.
    cbn. now apply (Hdb k s).
  - intros r' Hr' Hc.
    rewrite lookup_insert_ne in Hc
      by (intros Heq; now apply (Hother r' Hr')).
    apply (wf_live _ Hwf); [|exact Hc].
    now apply list_elem_of_delete_inv in Hr'.
  - intros r' Hr'. apply lookup_insert_is_Some'. right.
    apply (wf_made _ Hwf). now apply list_elem_of_delete_inv in Hr'.
  - exact Hnd.
Qed.

Lemma DeregisterService_found w serviceInfo s :
  wfWorld w -> serviceDb w !! keyNameOf serviceInfo = Some s ->
  DeregisterService kapi w serviceInfo =
    Returns
      (mkWorld (kDelete kapi (store w) (keyNameOf serviceInfo)).1
         (delete (keyNameOf serviceInfo) (serviceDb w))
         (<[stopChan s := [true]]> (chans w)) (refreshers w))
      (kDelete kapi (store w) (keyNameOf serviceInfo)).2.
Proof.
  intros Hwf Hk. unfold DeregisterService, chanSend.
  rewrite Hk, (wf_open _ Hwf _ _ Hk). cbn.
  now destruct (kDelete kapi (store w) (keyNameOf serviceInfo)).
Qed.

Lemma DeregisterService_missing w serviceInfo :
  serviceDb w !! keyNameOf serviceInfo = None ->
  DeregisterService kapi w serviceInfo =
    Returns w (Some "Service not found"%string).
Proof. intros Hk. unfold DeregisterService. now rewrite Hk. Qed.

Lemma deregisterPrevious_cleared w serviceInfo :
  wfWorld w ->
  deregisterPrevious kapi w serviceInfo = Some (cleared kapi w serviceInfo).
Proof.
  intros Hwf. unfold deregisterPrevious, cleared.
  destruct (serviceDb w !! keyNameOf serviceInfo) as [s|] eqn:Hk;
    [|reflexivity].
  now rewrite (DeregisterService_found _ _ _ Hwf Hk).
Qed.

Lemma cleared_facts w serviceInfo :
  wfWorld w ->
  wfWorld (cleared kapi w serviceInfo)
  /\ serviceDb (cleared kapi w serviceInfo) !! keyNameOf serviceInfo = None
  /\ refreshers (cleared kapi w serviceInfo) = refreshers w.
Proof.
  intros Hwf. unfold cleared.
  destruct (serviceDb w !! keyNameOf serviceInfo) as [s|] eqn:Hk.
  - split; [now apply wf_signal|]. cbn. split; [|reflexivity].
    apply lookup_delete_eq.
  - split; [exact Hwf|]. split; [exact Hk|reflexivity].
Qed.

(** [RegisterService], from a world where the invariant holds. *)
Lemma RegisterService_cases w serviceInfo :
  wfWorld w ->
  let w1 := cleared kapi w serviceInfo in
  let keyName := keyNameOf serviceInfo in
  RegisterService kapi Marshal w serviceInfo =
    match Marshal serviceInfo with
    | Err err => Returns w1 (Some err)
    | Ok jsonVal =>
        let stErr :=
          kSet kapi (store w1) keyName jsonVal {| TTL := serviceTTL |} in
        match stErr.2 with
        | Some e =>
            Returns (mkWorld stErr.1 (serviceDb w1) (chans w1)
                       (refreshers w1)) (Some e)
        | None =>
            let ch := fresh (dom (chans w1)) in
            Returns
              (mkWorld stErr.1
                 (<[keyName :=
                      mkServiceState (ServiceName serviceInfo)
                        (HostAddr serviceInfo) (Port serviceInfo) ch]>
                    (serviceDb w1))
                 (<[ch := []]> (chans w1))
                 (refreshers w1 ++ [mkRefresher keyName jsonVal ch]))
              None
        end
    end.
Proof.
  intros Hwf w1 keyName. unfold RegisterService.
  rewrite (deregisterPrevious_cleared _ _ Hwf). fold w1. fold keyName.
  destruct (Marshal serviceInfo) as [jsonVal|err]; [|reflexivity].
  destruct (kSet kapi (store w1) keyName jsonVal {| TTL := serviceTTL |})
    as [st2 [e|]]; reflexivity.
Qed.

Lemma RegisterService_wf w serviceInfo w' err :
  wfWorld w ->
  RegisterService kapi Marshal w serviceInfo = Returns w' err ->
  wfWorld w'.
Proof.
  intros Hwf. rewrite (RegisterService_cases _ _ Hwf).
  destruct (cleared_facts w serviceInfo Hwf) as (Hwf1 & Hk1 & _).
  cbv zeta. destruct (Marshal serviceInfo) as [jsonVal|e].
  - destruct (kSet kapi _ _ _ _).2.
    + intros [= <- _]. now apply wf_store.
    + intros [= <- _]. now apply wf_spawn.
  - now intros [= <- _].
Qed.

Lemma step_wf w a w' :
  wfWorld w -> step kapi Marshal w a = Some w' -> wfWorld w'.
Proof.
  intros Hwf. destruct a as [serviceInfo|serviceInfo|i env now|i];
    cbn [step].
  - destruct (RegisterService kapi Marshal w serviceInfo) as [w1 e|] eqn:HR;
      [|discriminate].
    intros [= <-]. exact (RegisterService_wf _ _ _ _ Hwf HR).
  - destruct (serviceDb w !! keyNameOf serviceInfo) as [s|] eqn:Hk.
    + rewrite (DeregisterService_found _ _ _ Hwf Hk). intros [= <-].
      now apply wf_signal.
    + rewrite (DeregisterService_missing _ _ Hk). now intros [= <-].
  - destruct (refreshers w !! i) as [r|]; [|discriminate].
    destruct (refreshCycle kapi env (rKeyName r) (rKeyVal r) (store w) now)
      as [[st' t'] ws].
    intros [= <-]. now apply wf_store.
  - destruct (refreshers w !! i) as [r|] eqn:Hi; [|discriminate].
    destruct (chans w !! rStopChan r) as [[|v buf]|] eqn:Hc;
      try discriminate.
    intros [= <-]. now apply (wf_exit w i r v buf).
Qed.

Lemma run_wf acts : forall w w',
  wfWorld w -> run kapi Marshal w acts = Some w' -> wfWorld w'.
Proof.
  induction acts as [|a acts IH]; cbn [run]; intros w w' Hwf.
  - now intros [= <-].
  - destruct (step kapi Marshal w a) as [w1|] eqn:Hs; [|discriminate].
    apply IH. exact (step_wf _ _ _ Hwf Hs).
Qed.

(** Every world the plugin gets to from its start. *)
Lemma reachable_wf (st0 : Store) acts w :
  run kapi Marshal (initWorld st0) acts = Some w -> wfWorld w.
Proof. apply run_wf, wf_init. Qed.


(** The renewal goroutines of a key that were not told to stop: one when
    the key is in the table, none otherwise. *)
Lemma live_refreshers_count w keyName :
  wfWorld w ->
  length (liveRefreshersOf w keyName) =
    match serviceDb w !! keyName with Some _ => 1%nat | None => 0%nat end.
Proof.
  intros Hwf. unfold liveRefreshersOf.
  assert (Hlive : forall r, r ∈ refreshers w ->
             rKeyName r = keyName /\ liveRefresher w r = true ->
             exists s, serviceDb w !! keyName = Some s
                       /\ stopChan s = rStopChan r).
  { intros r Hr [<- Hl]. apply (wf_live _ Hwf _ Hr).
    unfold liveRefresher in Hl.
    now destruct (chans w !! rStopChan r) as [[|]|]. }
  destruct (serviceDb w !! keyName) as [s|] eqn:Hk.
  - apply Nat.le_antisymm.
    + apply (filter_length_le_1 rStopChan _ _ (stopChan s));
        [apply (wf_nodup _ Hwf)|].
      intros r Hr HP. destruct (Hlive r Hr HP) as (s' & [= <-] & Hc).
      now symmetry.
    + destruct (wf_loop _ Hwf _ _ Hk) as [v Hv].
      assert (Hin : mkRefresher keyName v (stopChan s)
                      ∈ filter (fun r => rKeyName r = keyName
                                         /\ liveRefresher w r = true)
                          (refreshers w)).
      { apply list_elem_of_filter. split; [|exact Hv]. cbn.
        split; [reflexivity|]. unfold liveRefresher. cbn.
        now rewrite (wf_open _ Hwf _ _ Hk). }
      destruct (filter _ (refreshers w)); [now apply elem_of_nil in Hin|].
      cbn. lia.
  - destruct (filter _ (refreshers w)) as [|r tl] eqn:Hf; [reflexivity|].
    assert (Hin : r ∈ filter (fun r => rKeyName r = keyName
                                        /\ liveRefresher w r = true)
                      (refreshers w)) by (rewrite Hf; left).
    apply list_elem_of_filter in Hin as [HP Hr].
    now destruct (Hlive r Hr HP) as (s' & ? & _).
Qed.


(** A record that carries an identity sits at the key of the identity. *)
Lemma registrations_at_key w serviceInfo k s :
  wfWorld w -> (k, s) ∈ registrationsOf w serviceInfo ->
  k = keyNameOf serviceInfo
  /\ serviceDb w !! keyNameOf serviceInfo = Some s.
Proof.
  intros Hwf [(Hn & Hh & Hp) Hks%elem_of_map_to_list]%list_elem_of_filter.
  cbn in *.
  assert (Hk : k = keyNameOf serviceInfo).
  { rewrite <- (wf_key _ Hwf _ _ Hks). unfold infoOf.
    rewrite Hn, Hh, Hp. now destruct serviceInfo. }
  split; [exact Hk|]. now rewrite <- Hk.
Qed.

End RegistryFacts.

Section RegistryClaims.

Context {Store : Type}.
Variable kapi : KeysAPI Store.
Variable Marshal : ServiceInfo -> result string.
Implicit Types (w : @World Store) (st : Store).

(** C6, as amended: [DeregisterService] looks for the record under the
    key of the identity. When there is none it returns the error "Service
    not found" and leaves the world as it was; no record of the table
    carries the identity then. When there is one, it puts the stop signal
    on the channel of that record's renewal goroutine, takes the record out
    of the table, calls the store's delete, and returns what the delete
    returned, with the record gone whether the delete failed or not. The
    record has the key of the identity given; it carries that very
    identity when the service names have no slash and the hosts no
    colon. *)
Theorem deregister_service (st0 : Store) acts w serviceInfo :
  run kapi Marshal (initWorld st0) acts = Some w ->
  match serviceDb w !! keyNameOf serviceInfo with
  | None =>
      DeregisterService kapi w serviceInfo =
        Returns w (Some "Service not found"%string)
      /\ registrationsOf w serviceInfo = []
  | Some srvState =>
      (exists w',
          DeregisterService kapi w serviceInfo =
            Returns w' (kDelete kapi (store w) (keyNameOf serviceInfo)).2
          /\ (exists v, mkRefresher (keyNameOf serviceInfo) v
                          (stopChan srvState) ∈ refreshers w)
          /\ chans w !! stopChan srvState = Some []
          /\ chans w' = <[stopChan srvState := [true]]> (chans w)
          /\ serviceDb w' = delete (keyNameOf serviceInfo) (serviceDb w)
          /\ store w' = (kDelete kapi (store w) (keyNameOf serviceInfo)).1
          /\ refreshers w' = refreshers w)
      /\ keyNameOf (infoOf srvState) = keyNameOf serviceInfo
      /\ (hasByte "/" (ServiceName serviceInfo) = false ->
          hasByte "/" (stServiceName srvState) = false ->
          hasByte ":" (HostAddr serviceInfo) = false ->
          hasByte ":" (stHostAddr srvState) = false ->
          infoOf srvState = serviceInfo)
  end.
Proof.
  intros Hwf%reachable_wf.
  destruct (serviceDb w !! keyNameOf serviceInfo) as [s|] eqn:Hk.
  - pose proof (wf_key _ Hwf _ _ Hk) as Hkey.
    split; [|split; [exact Hkey|]].
    + eexists. split; [apply (DeregisterService_found _ _ _ _ Hwf Hk)|].
      cbn. split; [apply (wf_loop _ Hwf _ _ Hk)|].
      split; [apply (wf_open _ Hwf _ _ Hk)|]. now repeat split.
    + intros Hn Hsn Hh Hsh. now apply keyNameOf_inj.
  - split; [now apply DeregisterService_missing|].
    destruct (registrationsOf w serviceInfo) as [|[k s] tl] eqn:Hregs;
      [reflexivity|].
    assert (Hin : (k, s) ∈ registrationsOf w serviceInfo)
      by (rewrite Hregs; left).
    destruct (registrations_at_key _ _ _ _ Hwf Hin) as [_ Hs]. congruence.
Qed.

(** C10: when [RegisterService] returns an error, the table has no record
    at the key and no renewal goroutine was started; the error is the
    codec's or the store write's; and a record that was there before the
    call has been de-registered: it is out of the table and its renewal
    goroutine was told to stop, before the codec and the store write were
    tried. *)
Theorem failed_register_leaves_nothing (st0 : Store) acts w serviceInfo
  w' e :
  run kapi Marshal (initWorld st0) acts = Some w ->
  RegisterService kapi Marshal w serviceInfo = Returns w' (Some e) ->
  serviceDb w' !! keyNameOf serviceInfo = None
  /\ refreshers w' = refreshers w
  /\ liveRefreshersOf w' (keyNameOf serviceInfo) = []
  /\ (Marshal serviceInfo = Err e
      \/ exists jsonVal,
          Marshal serviceInfo = Ok jsonVal
          /\ (kSet kapi (store (cleared kapi w serviceInfo))
                (keyNameOf serviceInfo) jsonVal {| TTL := serviceTTL |}).2
             = Some e)
  /\ forall srvState,
      serviceDb w !! keyNameOf serviceInfo = Some srvState ->
      deregisterPrevious kapi w serviceInfo
        = Some (cleared kapi w serviceInfo)
      /\ serviceDb w' = delete (keyNameOf serviceInfo) (serviceDb w)
      /\ chans w' !! stopChan srvState = Some [true].
Proof.
  intros Hwf%reachable_wf HR.
  pose proof (RegisterService_wf _ _ _ _ _ _ Hwf HR) as Hwf'.
  destruct (cleared_facts kapi w serviceInfo Hwf) as (Hwf1 & Hk1 & Hr1).
  rewrite (RegisterService_cases _ _ _ _ Hwf) in HR. cbv zeta in HR.
  assert (Hshape :
    serviceDb w' = serviceDb (cleared kapi w serviceInfo)
    /\ chans w' = chans (cleared kapi w serviceInfo)
    /\ refreshers w' = refreshers (cleared kapi w serviceInfo)
    /\ (Marshal serviceInfo = Err e
        \/ exists jsonVal,
            Marshal serviceInfo = Ok jsonVal
            /\ (kSet kapi (store (cleared kapi w serviceInfo))
                  (keyNameOf serviceInfo) jsonVal {| TTL := serviceTTL |}).2
               = Some e)).
  { destruct (Marshal serviceInfo) as [jsonVal|e0].
    - destruct (kSet kapi _ _ _ _).2 as [e1|] eqn:He; [|discriminate].
      injection HR as <- <-. repeat split. right. now exists jsonVal.
    - injection HR as <- <-. repeat split. now left. }
  destruct Hshape as (Hdb & Hch & Hrs & Hwhy).
  assert (Hnone : serviceDb w' !! keyNameOf serviceInfo = None)
    by now rewrite Hdb.
  split; [exact Hnone|]. split; [now rewrite Hrs|].
  split.
  { pose proof (live_refreshers_count w' (keyNameOf serviceInfo) Hwf') as Hl.
    rewrite Hnone in Hl. now apply nil_length_inv. }
  split; [exact Hwhy|].
  intros s Hs. split; [now apply deregisterPrevious_cleared|].
  rewrite Hdb, Hch. unfold cleared. rewrite Hs. cbn.
  split; [reflexivity|apply lookup_insert_eq].
Qed.


(** C4, as amended: [RegisterService] returns to its caller the error of
    the codec and the error of the first store write. [WatchService]
    returns no error, whatever the store does: the snapshot is read by the
    goroutine it starts, after it has returned. *)
Theorem setup_failures_of_register_and_watch (st0 : Store) acts w
  serviceInfo :
  run kapi Marshal (initWorld st0) acts = Some w ->
  (forall e,
      Marshal serviceInfo = Err e ->
      exists w', RegisterService kapi Marshal w serviceInfo
                 = Returns w' (Some e))
  /\ (forall jsonVal e,
         Marshal serviceInfo = Ok jsonVal ->
         (kSet kapi (store (cleared kapi w serviceInfo))
            (keyNameOf serviceInfo) jsonVal {| TTL := serviceTTL |}).2
         = Some e ->
         exists w', RegisterService kapi Marshal w serviceInfo
                    = Returns w' (Some e))
  /\ forall name, WatchService name = (None, serviceKey name).
Proof.
  intros Hwf%reachable_wf. repeat split.
  - intros e He. rewrite (RegisterService_cases _ _ _ _ Hwf), He. eauto.
  - intros jsonVal e Hv He.
    rewrite (RegisterService_cases _ _ _ _ Hwf), Hv. cbv zeta.
    rewrite He. eauto.
Qed.

End RegistryClaims.

(** ** The renewal loop *)

Section RenewalFacts.

Context {Store : Type}.
Variable kapi : KeysAPI Store.
Variable env : RefreshEnv.
Variables keyName keyVal : string.
Implicit Types (st : Store) (now t : Z) (c : Cycle).

Lemma refreshInterval_pos : 0 < refreshInterval.
Proof. reflexivity. Qed.

(** The interval is a third of the time to live, in seconds. *)
Lemma refreshInterval_third : 3 * refreshInterval = serviceTTL * Second.
Proof. reflexivity. Qed.

Lemma refreshCycle_designed st now :
  cycleAsDesigned env keyName keyVal
    (mkCycle now (now + refreshInterval)
       (refreshCycle kapi env keyName keyVal st (now + refreshInterval)).2
       (refreshCycle kapi env keyName keyVal st (now + refreshInterval)).1.2).
Proof.
  split; [reflexivity|]. cbn [fired writes finished]. unfold refreshCycle.
  destruct (kSet kapi st keyName keyVal {| TTL := serviceTTL |})
    as [st1 [e|]]; cbn.
  - right. destruct (kSet kapi st1 keyName keyVal {| TTL := serviceTTL |})
      as [st2 err2]. cbn. now exists e, err2.
  - now left.
Qed.

(** The writes of a cycle do not end before the timer fired. *)
Lemma cycleAsDesigned_times c :
  cycleAsDesigned env keyName keyVal c ->
  entered c < fired c <= finished c
  /\ Forall (fun wr => fired c <= setAt wr <= finished c) (writes c).
Proof.
  intros [Hf Hw]. pose proof refreshInterval_pos. cbv zeta in Hw.
  destruct Hw as [[-> ->] | (e & err2 & -> & ->)].
  - split; [lia|]. repeat constructor; cbn; lia.
  - split; [lia|]. repeat constructor; cbn; lia.
Qed.

Lemma selectRefresh_timer now t :
  selectRefresh env now = TimerFired t ->
  t = now + refreshInterval
  /\ forall ts, stopAt env = Some ts -> t <= ts.
Proof.
  unfold selectRefresh. pose proof refreshInterval_pos.
  destruct (stopAt env) as [ts|].
  - destruct (Z.ltb_spec (Z.max now ts) (now + refreshInterval));
      [discriminate|].
    destruct (Z.ltb_spec (now + refreshInterval) (Z.max now ts)).
    + intros [= <-]. split; [reflexivity|]. intros ? [= <-]. lia.
    + destruct (timerWinsTie env); [|discriminate].
      intros [= <-]. split; [reflexivity|]. intros ? [= <-]. lia.
  - intros [= <-]. split; [reflexivity|]. discriminate.
Qed.

Lemma selectRefresh_stop now t :
  selectRefresh env now = StopReceived t ->
  exists ts, stopAt env = Some ts /\ t = Z.max ts now
             /\ t <= now + refreshInterval.
Proof.
  unfold selectRefresh.
  destruct (stopAt env) as [ts|]; [|discriminate]. intros Hsel.
  exists ts. split; [reflexivity|]. revert Hsel.
  destruct (Z.ltb_spec (Z.max now ts) (now + refreshInterval)).
  - intros [= <-]. lia.
  - destruct (Z.ltb_spec (now + refreshInterval) (Z.max now ts));
      [discriminate|].
    destruct (timerWinsTie env); [discriminate|].
    intros [= <-]. lia.
Qed.

(** A signal that is there before the timer can fire is taken. *)
Lemma selectRefresh_signalled now ts :
  stopAt env = Some ts -> ts < now + refreshInterval ->
  selectRefresh env now = StopReceived (Z.max ts now).
Proof.
  intros Hs Hlt. unfold selectRefresh. rewrite Hs.
  pose proof refreshInterval_pos.
  destruct (Z.ltb_spec (Z.max now ts) (now + refreshInterval)); [|lia].
  f_equal. lia.
Qed.

Lemma refreshService_step fuel st now t :
  selectRefresh env now = TimerFired t ->
  refreshService kapi (S fuel) env keyName keyVal st now =
    let cyc := refreshCycle kapi env keyName keyVal st t in
    let rest :=
      refreshService kapi fuel env keyName keyVal cyc.1.1 cyc.1.2 in
    (mkCycle now t cyc.2 cyc.1.2 :: rest.1.1, rest.1.2, rest.2).
Proof.
  intros Hsel. cbn [refreshService]. rewrite Hsel.
  destruct (refreshCycle kapi env keyName keyVal st t) as [[st' now'] ws].
  cbn. now destruct (refreshService kapi fuel env keyName keyVal st' now')
    as [[cycles fin] stEnd].
Qed.

(** Every cycle of a run is as designed, and the cycles follow each
    other without a gap. *)
Lemma refreshService_cycles fuel : forall st now,
  chained now (refreshService kapi fuel env keyName keyVal st now).1.1
  /\ Forall (cycleAsDesigned env keyName keyVal)
       (refreshService kapi fuel env keyName keyVal st now).1.1.
Proof.
  induction fuel as [|fuel IH]; intros st now; [now cbn|].
  destruct (selectRefresh env now) as [t|t] eqn:Hsel.
  - rewrite (refreshService_step _ _ _ _ Hsel). cbv zeta. cbn [fst snd].
    destruct (selectRefresh_timer _ _ Hsel) as [-> _].
    set (cyc := refreshCycle kapi env keyName keyVal st
                  (now + refreshInterval)).
    destruct (IH cyc.1.1 cyc.1.2) as [Hch Hall].
    split; [now split|]. constructor; [|exact Hall].
    apply refreshCycle_designed.
  - cbn [refreshService]. rewrite Hsel. now cbn.
Qed.

(** No timer fires after the moment of the signal. *)
Lemma refreshService_fired ts fuel : forall st now,
  stopAt env = Some ts ->
  Forall (fun c => fired c <= ts)
    (refreshService kapi fuel env keyName keyVal st now).1.1.
Proof.
  induction fuel as [|fuel IH]; intros st now Hs; [now cbn|].
  destruct (selectRefresh env now) as [t|t] eqn:Hsel.
  - rewrite (refreshService_step _ _ _ _ Hsel). cbv zeta. cbn [fst snd].
    constructor; [|now apply IH]. cbn.
    now apply (selectRefresh_timer _ _ Hsel).
  - cbn [refreshService]. rewrite Hsel. now cbn.
Qed.

(** When the loop returns: at the signal, or when the [select] that
    finds the signal is entered; that [select] waits no longer than an
    interval. *)
Lemma refreshService_stopped fuel : forall st now t,
  (refreshService kapi fuel env keyName keyVal st now).1.2 = StoppedAt t ->
  exists ts,
    stopAt env = Some ts
    /\ let e := lastEntry now
                  (refreshService kapi fuel env keyName keyVal st now).1.1 in
       t = Z.max ts e /\ t <= e + refreshInterval.
Proof.
  induction fuel as [|fuel IH]; intros st now t; [discriminate|].
  destruct (selectRefresh env now) as [t'|t'] eqn:Hsel.
  - rewrite (refreshService_step _ _ _ _ Hsel). cbv zeta. cbn [fst snd].
    intros Hfin. destruct (IH _ _ _ Hfin) as (ts & Hs & He).
    exists ts. split; [exact Hs|exact He].
  - cbn [refreshService]. rewrite Hsel. cbn. intros [= <-].
    destruct (selectRefresh_stop _ _ Hsel) as (ts & Hs & -> & Hle).
    exists ts. now repeat split.
Qed.

(** With a signal on its way the loop returns, given passes enough to
    get to the moment of the signal. *)
Lemma refreshService_returns ts fuel : forall st now,
  stopAt env = Some ts ->
  Z.max ts now - now < Z.of_nat fuel * refreshInterval ->
  exists t, (refreshService kapi fuel env keyName keyVal st now).1.2
            = StoppedAt t.
Proof.
  pose proof refreshInterval_pos as Hpos.
  induction fuel as [|fuel IH]; intros st now Hs Hlt; [cbn in Hlt; lia|].
  destruct (selectRefresh env now) as [t|t] eqn:Hsel.
  - rewrite (refreshService_step _ _ _ _ Hsel). cbv zeta. cbn [fst snd].
    destruct (selectRefresh_timer _ _ Hsel) as [-> Hts].
    specialize (Hts ts Hs).
    apply IH; [exact Hs|].
    pose proof (refreshCycle_designed st now) as Hd.
    apply cycleAsDesigned_times in Hd as [Ht _]. cbn in Ht.
    lia.
  - cbn [refreshService]. rewrite Hsel. cbn. now exists t.
Qed.

Lemma lastEntry_mono cycles : forall now,
  chained now cycles ->
  Forall (cycleAsDesigned env keyName keyVal) cycles ->
  now <= lastEntry now cycles
  /\ Forall (fun c => finished c <= lastEntry now cycles) cycles.
Proof.
  induction cycles as [|c cycles IH]; intros now Hch Hall; cbn.
  - split; [lia|constructor].
  - destruct Hch as [<- Hch]. inversion Hall as [|? ? Hc Hrest]; subst.
    destruct (IH _ Hch Hrest) as [Hle Hfin].
    destruct (cycleAsDesigned_times _ Hc) as [Ht _].
    split; [lia|]. constructor; [lia|exact Hfin].
Qed.

(** When no cycle's writes take longer than an interval, the [select]
    after the last cycle is entered within an interval of the signal. *)
Lemma lastEntry_bound ts cycles : forall now,
  Forall (fun c => fired c <= ts) cycles ->
  Forall (fun c => finished c - fired c <= refreshInterval) cycles ->
  lastEntry now cycles <= Z.max now (ts + refreshInterval).
Proof.
  induction cycles as [|c cycles IH]; intros now Hf Hlat; cbn; [lia|].
  apply Forall_cons in Hf as [Hc Hf], Hlat as [Hl Hlat].
  specialize (IH (finished c) Hf Hlat). lia.
Qed.

(** The log of a run is what [kapi.Set] did: each cycle's writes are the
    answers of [Set], and each [Set] is made on the store the one before it
    left. *)
Lemma refreshService_threads fuel : forall st now,
  storeThreaded kapi env keyName keyVal st
    (refreshService kapi fuel env keyName keyVal st now).1.1
    (refreshService kapi fuel env keyName keyVal st now).2.
Proof.
  induction fuel as [|fuel IH]; intros st now; [reflexivity|].
  destruct (selectRefresh env now) as [t|t] eqn:Hsel.
  - rewrite (refreshService_step _ _ _ _ Hsel). cbv zeta. cbn [fst snd].
    cbn [storeThreaded fired writes].
    pose proof (IH (refreshCycle kapi env keyName keyVal st t).1.1
                  (refreshCycle kapi env keyName keyVal st t).1.2) as Hrest.
    revert Hrest. unfold refreshCycle.
    destruct (kSet kapi st keyName keyVal {| TTL := serviceTTL |})
      as [st1 [e|]]; cbn [fst snd].
    + destruct (kSet kapi st1 keyName keyVal {| TTL := serviceTTL |})
        as [st2 err2]. cbn [fst snd]. intros Hrest. now split.
    + intros Hrest. now split.
  - cbn [refreshService]. rewrite Hsel. reflexivity.
Qed.

(** C7, as amended: the timer of every cycle fires [time.Second *
    (serviceTTL/3)] after the loop starts to wait; the cycle then calls
    [kapi.Set] with the key and value the loop was started with and the
    option [TTL: serviceTTL], and when [Set] answers an error, and only
    then, calls it once more with the same arguments, at once, and no third
    time; the next wait starts when the writes have returned. With a stop
    signal on its way the loop returns: at the signal when it is waiting,
    else when the writes of the cycle under way have returned and it next
    starts to wait, never after a further timer; no timer fires after the
    signal and no write is issued after the return. The return is within
    an interval of the signal when no cycle's writes take longer than an
    interval, not otherwise. *)
Theorem renewal_loop fuel st now cycles fin stEnd :
  refreshService kapi fuel env keyName keyVal st now
    = (cycles, fin, stEnd) ->
  chained now cycles
  /\ Forall (cycleAsDesigned env keyName keyVal) cycles
  /\ storeThreaded kapi env keyName keyVal st cycles stEnd
  /\ forall ts,
      stopAt env = Some ts ->
      Forall (fun c => fired c <= ts) cycles
      /\ (exists fuel0, forall fuel',
             (fuel0 <= fuel')%nat ->
             exists t,
               (refreshService kapi fuel' env keyName keyVal st now).1.2
               = StoppedAt t)
      /\ forall t,
          fin = StoppedAt t ->
          t = Z.max ts (lastEntry now cycles)
          /\ (lastEntry now cycles <= ts -> t = ts)
          /\ t <= lastEntry now cycles + refreshInterval
          /\ Forall (fun c => Forall (fun wr => setAt wr <= t) (writes c))
               cycles
          /\ (Forall (fun c => finished c - fired c <= refreshInterval)
                cycles ->
              t <= Z.max now (ts + refreshInterval)).
Proof.
  intros Hrun.
  destruct (refreshService_cycles fuel st now) as [Hch Hall].
  pose proof (refreshService_stopped fuel st now) as Hstop.
  pose proof (refreshService_threads fuel st now) as Hthread.
  rewrite Hrun in Hch, Hall, Hstop, Hthread.
  cbn [fst snd] in Hch, Hall, Hstop, Hthread.
  split; [exact Hch|]. split; [exact Hall|]. split; [exact Hthread|].
  intros ts Hs.
  pose proof (refreshService_fired ts fuel st now Hs) as Hfired.
  rewrite Hrun in Hfired. cbn [fst snd] in Hfired.
  split; [exact Hfired|]. split.
  - pose proof refreshInterval_pos as Hpos.
    exists (S (Z.to_nat ((Z.max ts now - now) / refreshInterval))).
    intros fuel' Hfuel. apply (refreshService_returns ts); [exact Hs|].
    pose proof (Z.mul_succ_div_gt (Z.max ts now - now) refreshInterval Hpos).
    assert (0 <= (Z.max ts now - now) / refreshInterval)
      by (apply Z.div_pos; lia).
    nia.
  - intros t Hfin. destruct (Hstop t Hfin) as (ts' & Hs' & Ht & Hle).
    rewrite Hs in Hs'. injection Hs' as <-.
    split; [exact Ht|]. split; [lia|]. split; [exact Hle|].
    destruct (lastEntry_mono cycles now Hch Hall) as [_ Hfinished].
    split.
    + apply Forall_forall. intros c Hc.
      pose proof (proj1 (Forall_forall _ _) Hfinished c Hc) as Hfc.
      pose proof (proj1 (Forall_forall _ _) Hall c Hc) as Hdc.
      apply cycleAsDesigned_times in Hdc as [_ Hws].
      eapply Forall_impl; [exact Hws|]. intros wr Hwr.
      cbv beta in Hfc, Hwr |- *. lia.
    + intros Hlat.
      pose proof (lastEntry_bound ts cycles now Hfired Hlat). lia.
Qed.

End RenewalFacts.

(** ** The claims at work on the store in memory *)

Lemma registered_reachable (st : MemStore.t) :
  st = MemStore.empty42 \/ st = MemStore.twoWrites ->
  run MemStore.kapi MemStore.Marshal (initWorld st) [ActRegister MemStore.web]
  = Some (MemStore.registered st).
Proof. intros [-> | ->]; vm_compute; reflexivity. Qed.

Lemma registered_lookup (st : MemStore.t) :
  serviceDb (MemStore.registered st) !! keyNameOf MemStore.web
  = Some (mkServiceState "web" "10.0.0.5" 8080 0).
Proof. vm_compute. reflexivity. Qed.

Lemma deregister_service_witness :
  exists w',
    DeregisterService MemStore.kapi (MemStore.registered MemStore.empty42)
      MemStore.web = Returns w' None
    /\ chans w' = <[0%nat := [true]]>
                    (chans (MemStore.registered MemStore.empty42))
    /\ serviceDb w' = delete MemStore.webKey
                        (serviceDb (MemStore.registered MemStore.empty42))
    /\ refreshers w' = refreshers (MemStore.registered MemStore.empty42).
Proof.
  pose proof (deregister_service MemStore.kapi MemStore.Marshal
                MemStore.empty42 [ActRegister MemStore.web]
                (MemStore.registered MemStore.empty42) MemStore.web
                (registered_reachable _ (or_introl eq_refl))) as H.
  rewrite registered_lookup in H.
  destruct H as ((w' & HD & _ & _ & Hch & Hdb & _ & Hrs) & _).
  exists w'. repeat split; assumption.
Defined.

Lemma slashed_reachable :
  run MemStore.kapi MemStore.Marshal (initWorld MemStore.empty42)
    [ActRegister Shared.slashed] = Some Shared.registeredSlashed.
Proof. vm_compute. reflexivity. Qed.

(** C6, as stated, fails: the identity [twin] was never registered and no
    record carries it, yet [DeregisterService] does not answer "Service
    not found": it finds the record of [slashed], which has the same key,
    takes it out of the table and returns no error. *)
Lemma deregister_finds_another_identity :
  registrationsOf Shared.registeredSlashed Shared.twin = []
  /\ serviceDb Shared.registeredSlashed !! keyNameOf Shared.twin
     = Some (mkServiceState "a/b" "c" 1 0)
  /\ DeregisterService MemStore.kapi Shared.registeredSlashed Shared.twin
     <> Returns Shared.registeredSlashed (Some "Service not found"%string)
  /\ match DeregisterService MemStore.kapi Shared.registeredSlashed
             Shared.twin with
     | Returns w' err =>
         err = None /\ serviceDb w' !! keyNameOf Shared.slashed = None
     | Blocks => False
     end.
Proof.
  split; [vm_compute; reflexivity|]. split; [vm_compute; reflexivity|].
  split; [|vm_compute; now split].
  intros H.
  apply (f_equal (fun c => match c with
                           | Returns _ e => e
                           | Blocks => None
                           end)) in H.
  vm_compute in H. discriminate H.
Qed.

Lemma failed_register_leaves_nothing_witness :
  exists w',
    RegisterService MemStore.kapi MemStore.Marshal
      (MemStore.registered MemStore.twoWrites) MemStore.web
    = Returns w' (Some MemStore.unavailable)
    /\ serviceDb w' !! keyNameOf MemStore.web = None
    /\ liveRefreshersOf w' (keyNameOf MemStore.web) = []
    /\ chans w' !! 0%nat = Some [true].
Proof.
  eexists. split; [vm_compute; reflexivity|].
  destruct (failed_register_leaves_nothing MemStore.kapi MemStore.Marshal
              MemStore.twoWrites [ActRegister MemStore.web]
              (MemStore.registered MemStore.twoWrites) MemStore.web _
              MemStore.unavailable
              (registered_reachable _ (or_intror eq_refl)) eq_refl)
    as (Hnone & _ & Hlive & _ & Hold).
  split; [exact Hnone|]. split; [exact Hlive|].
  exact (proj2 (proj2 (Hold _ (registered_lookup _)))).
Defined.


Lemma setup_failures_of_register_and_watch_witness :
  (exists w',
      RegisterService MemStore.kapi MemStore.MarshalFails
        (initWorld MemStore.empty42) MemStore.web
      = Returns w' (Some "json: unsupported value"%string))
  /\ WatchService "web" = (None, serviceKey "web").
Proof.
  destruct (setup_failures_of_register_and_watch MemStore.kapi
              MemStore.MarshalFails MemStore.empty42 []
              (initWorld MemStore.empty42) MemStore.web eq_refl)
    as (Hcodec & _ & Hwatch).
  split; [exact (Hcodec _ eq_refl)|exact (Hwatch "web"%string)].
Defined.

(** C4, as stated, fails for [WatchService]: the snapshot of the service
    fails on this store, and the call returns no error; the failure is met
    by the goroutine, which ends the process. *)
Lemma watch_returns_no_snapshot_error :
  (getServiceState MemStore.kapi MemStore.Unmarshal MemStore.down42
     (serviceKey "web")).2 = Some MemStore.unavailable
  /\ (WatchService "web").1 = None
  /\ finish (watchThread MemStore.kapi MemStore.Unmarshal MemStore.down42
               (WatchService "web").2) = Fatal
  /\ (WatchService "web").1 <> Some MemStore.unavailable.
Proof. repeat split. discriminate. Qed.

Lemma renewal_loop_witness :
  Forall (cycleAsDesigned MemStore.stopAfter25 MemStore.webKey
            MemStore.webVal) MemStore.renewalRun.1.1
  /\ storeThreaded MemStore.kapi MemStore.stopAfter25 MemStore.webKey
       MemStore.webVal MemStore.empty42 MemStore.renewalRun.1.1
       MemStore.renewalRun.2
  /\ length MemStore.renewalRun.1.1 = 2%nat
  /\ MemStore.renewalRun.1.2 = StoppedAt (25 * Second)
  /\ Forall (fun c => fired c <= 25 * Second) MemStore.renewalRun.1.1
  /\ Forall (fun c => Forall (fun wr => setAt wr <= 25 * Second) (writes c))
       MemStore.renewalRun.1.1.
Proof.
  destruct (renewal_loop MemStore.kapi MemStore.stopAfter25 MemStore.webKey
              MemStore.webVal 5 MemStore.empty42 0
              MemStore.renewalRun.1.1 MemStore.renewalRun.1.2
              MemStore.renewalRun.2 eq_refl)
    as (_ & Hall & Hthread & Hstop).
  destruct (Hstop (25 * Second) eq_refl) as (Hfired & _ & Hret).
  destruct (Hret (25 * Second) eq_refl) as (_ & _ & _ & Hwrites & _).
  split; [exact Hall|]. split; [exact Hthread|].
  split; [reflexivity|]. split; [reflexivity|].
  split; [exact Hfired|exact Hwrites].
Defined.

(** C7, as stated, fails: the signal comes 11 seconds after the start,
    one second after the timer fired; the store cannot be reached and each
    write takes 50 seconds to fail; the second write is issued at 60
    seconds and the loop returns at 110 seconds, 99 seconds after the
    signal, where an interval is 10 seconds. *)
Lemma stop_signal_waits_for_writes :
  stopAt Shared.slowWrites = Some (11 * Second)
  /\ refreshInterval = 10 * Second
  /\ map setAt (concat (map writes Shared.slowRun.1.1))
     = [10 * Second; 60 * Second]
  /\ Shared.slowRun.1.2 = StoppedAt (110 * Second)
  /\ 11 * Second + refreshInterval < 110 * Second.
Proof. repeat split. Qed.

(** * Further properties *)

(** ** Texts: cutting and numbers *)

Section TextFacts.

Lemma append_cons (x : ascii) (a b : string) :
  String x a +:+ b = String x (a +:+ b).
Proof. reflexivity. Qed.

Lemma append_nil (b : string) : "" +:+ b = b.
Proof. reflexivity. Qed.

Lemma HasPrefix_append (pre rest : string) : HasPrefix (pre +:+ rest) pre = true.
Proof.
  induction pre as [|p pre IH]; [now destruct rest|].
  rewrite append_cons. cbn [HasPrefix]. now rewrite Ascii.eqb_refl.
Qed.

Lemma drop_bytes_append (pre rest : string) :
  drop_bytes (String.length pre) (pre +:+ rest) = rest.
Proof.
  induction pre as [|p pre IH]; [reflexivity|].
  rewrite append_cons. exact IH.
Qed.

Lemma TrimPrefix_append (pre rest : string) :
  TrimPrefix (pre +:+ rest) pre = rest.
Proof.
  unfold TrimPrefix. now rewrite HasPrefix_append, drop_bytes_append.
Qed.

Lemma hasByte_append (c : ascii) (a b : string) :
  hasByte c (a +:+ b) = hasByte c a || hasByte c b.
Proof.
  induction a as [|x a IH]; [reflexivity|].
  rewrite append_cons. cbn [hasByte]. now rewrite IH, orb_assoc.
Qed.

Lemma string_rev_of_cons (x : ascii) (cur : list ascii) (s : string) :
  string_rev_of (x :: cur) +:+ s = string_rev_of cur +:+ String x s.
Proof.
  unfold string_rev_of. cbn [rev].
  induction (rev cur) as [|y l IH]; [reflexivity|].
  cbn [app string_of_list_ascii]. rewrite !append_cons. now rewrite IH.
Qed.

Lemma append_empty_r (s : string) : s +:+ "" = s.
Proof.
  induction s as [|x s IH]; [reflexivity|]. rewrite append_cons.
  now rewrite IH.
Qed.

(** The scan over a text without the separating byte gives one piece. *)
Lemma split_scan_plain (c : ascii) (a : string) : forall cur,
  hasByte c a = false ->
  split_scan (String c "") a 0 cur = [string_rev_of cur +:+ a].
Proof.
  induction a as [|x a IH]; intros cur;
    cbn [split_scan hasByte HasPrefix String.length Nat.pred].
  - intros _. now rewrite append_empty_r.
  - intros [Hx Ha]%orb_false_elim. rewrite Hx.
    replace (HasPrefix a "") with true by now destruct a.
    rewrite (IH _ Ha). now rewrite string_rev_of_cons.
Qed.

(** The scan cuts at the first separating byte. *)
Lemma split_scan_cut (c : ascii) (a r : string) : forall cur,
  hasByte c a = false ->
  split_scan (String c "") (a +:+ String c r) 0 cur =
    (string_rev_of cur +:+ a) :: split_scan (String c "") r 0 [].
Proof.
  induction a as [|x a IH]; intros cur.
  - intros _. rewrite append_nil, append_empty_r.
    cbn [split_scan HasPrefix String.length Nat.pred].
    rewrite Ascii.eqb_refl. now destruct r.
  - rewrite append_cons.
    cbn [split_scan hasByte HasPrefix String.length Nat.pred].
    intros [Hx Ha]%orb_false_elim. rewrite Hx.
    rewrite (IH _ Ha). now rewrite string_rev_of_cons.
Qed.

Lemma Split_plain (c : ascii) (a : string) :
  hasByte c a = false -> Split a (String c "") = [a].
Proof. intros Ha. unfold Split. now rewrite split_scan_plain. Qed.

Lemma Split_cut (c : ascii) (a r : string) :
  hasByte c a = false ->
  Split (a +:+ String c r) (String c "") = a :: Split r (String c "").
Proof. intros Ha. unfold Split. now rewrite split_scan_cut. Qed.

(** [Split] always gives a piece. *)
Lemma split_scan_nonempty (sep s : string) : forall skip cur,
  split_scan sep s skip cur <> [].
Proof.
  induction s as [|x s IH]; intros skip cur; cbn [split_scan];
    [discriminate|].
  destruct skip; [|apply IH].
  destruct (HasPrefix (String x s) sep); [discriminate|apply IH].
Qed.

(** The first piece of a text cut at a byte does not have the byte. *)
Lemma split_scan_head (c : ascii) (s : string) : forall cur piece,
  forallb (fun x => negb (Ascii.eqb x c)) cur = true ->
  split_scan (String c "") s 0 cur !! 0%nat = Some piece ->
  hasByte c piece = false.
Proof.
  assert (Hrev : forall cur,
             forallb (fun x => negb (Ascii.eqb x c)) cur = true ->
             hasByte c (string_rev_of cur) = false).
  { intros cur Hcur. unfold string_rev_of.
    assert (Hall : forallb (fun x => negb (Ascii.eqb x c)) (rev cur) = true).
    { apply forallb_forall. intros x Hx%in_rev.
      now apply (proj1 (forallb_forall _ _) Hcur). }
    induction (rev cur) as [|y l IH]; cbn in *; [reflexivity|].
    apply andb_prop in Hall as [Hy Hl]. apply negb_true_iff in Hy.
    now rewrite Hy, IH. }
  induction s as [|x s IH]; intros cur piece Hcur;
    cbn [split_scan HasPrefix String.length Nat.pred].
  - intros [= <-]. now apply Hrev.
  - destruct (Ascii.eqb x c) eqn:Hx.
    + replace (HasPrefix s "") with true by now destruct s.
      intros [= <-]. now apply Hrev.
    + apply IH. cbn [forallb]. now rewrite Hx, Hcur.
Qed.

Lemma uval_acc (l : Decimal.uint) : forall acc,
  Z.pos (Pos.of_uint_acc l acc) = uval l (Z.pos acc).
Proof.
  induction l as [|l IH|l IH|l IH|l IH|l IH|l IH|l IH|l IH|l IH|l IH];
    intros acc; cbn [Pos.of_uint_acc uval]; [reflexivity|..];
    rewrite IH; f_equal; lia.
Qed.

Lemma uval_of_uint (d : Decimal.uint) : Z.of_N (Pos.of_uint d) = uval d 0.
Proof.
  induction d as [|l IH|l IH|l IH|l IH|l IH|l IH|l IH|l IH|l IH|l IH];
    cbn [Pos.of_uint uval]; [reflexivity|exact IH|..];
    cbn [Z.of_N]; now rewrite uval_acc.
Qed.

Lemma uval_ge (d : Decimal.uint) : forall n, 0 <= n -> n <= uval d n.
Proof.
  induction d as [|l IH|l IH|l IH|l IH|l IH|l IH|l IH|l IH|l IH|l IH];
    intros n Hn; cbn [uval]; [lia|..];
    (etransitivity; [|apply IH]; lia).
Qed.

Lemma parse_digits_step (c : ascii) (s : string) (n d : Z) :
  digit_of c = Some d -> 0 <= n -> 0 <= d -> n * 10 + d <= uint64Max ->
  parse_digits (String c s) n = parse_digits s (n * 10 + d).
Proof.
  intros Hd Hn Hd0 Hmax. cbn [parse_digits]. rewrite Hd.
  change uint64Max with 18446744073709551615 in *.
  change (18446744073709551615 / 10 + 1) with 1844674407370955162.
  destruct (Z.leb_spec 1844674407370955162 n); [lia|].
  cbv zeta. destruct (Z.ltb_spec 18446744073709551615 (n * 10 + d)); [lia|].
  reflexivity.
Qed.

(** The digit loop of [ParseUint] reads a printed number back. *)
Lemma parse_digits_uval (d : Decimal.uint) : forall n,
  0 <= n -> uval d n <= uint64Max ->
  parse_digits (NilEmpty.string_of_uint d) n = (uval d n, None).
Proof.
  induction d as [|l IH|l IH|l IH|l IH|l IH|l IH|l IH|l IH|l IH|l IH];
    intros n Hn Hmax; cbn [NilEmpty.string_of_uint uval] in *;
    [reflexivity|..].
  all: match goal with
       | Hm : uval ?l (?n * 10 + ?k) <= _, H0 : 0 <= ?n |- _ =>
           pose proof (uval_ge l (n * 10 + k) ltac:(lia)) as Hge;
           rewrite (parse_digits_step _ _ n k);
           [apply IH; lia|reflexivity|lia|lia|lia]
       end.
Qed.

End TextFacts.

(** ** Keys: from an identity and back *)

Section KeyRoundTrip.

Lemma string_of_uint_nonnil (d : Decimal.uint) :
  d <> Decimal.Nil ->
  NilZero.string_of_uint d = NilEmpty.string_of_uint d
  /\ exists c s, NilEmpty.string_of_uint d = String c s
                 /\ Ascii.eqb c "+" = false /\ Ascii.eqb c "-" = false.
Proof.
  destruct d; [congruence|..]; intros _; (split; [reflexivity|]);
    cbn [NilEmpty.string_of_uint]; eexists _, _; repeat split.
Qed.

(** A printed number has none of the bytes that separate the parts of a
    key. *)
Lemma string_of_uint_bytes (c : ascii) (d : Decimal.uint) :
  digit_of c = None -> hasByte c (NilEmpty.string_of_uint d) = false.
Proof.
  intros Hc.
  induction d as [|l IH|l IH|l IH|l IH|l IH|l IH|l IH|l IH|l IH|l IH];
    cbn [NilEmpty.string_of_uint hasByte]; [reflexivity|..];
    rewrite IH, orb_false_r;
    match goal with
    | |- Ascii.eqb ?x c = false =>
        destruct (Ascii.eqb_spec x c) as [<-|];
        [vm_compute in Hc; discriminate Hc|reflexivity]
    end.
Qed.

Lemma Itoa_bytes (c : ascii) (i : Z) :
  digit_of c = None -> c <> "-"%char -> hasByte c (Itoa i) = false.
Proof.
  intros Hc Hm. unfold Itoa.
  assert (Hu : forall p, hasByte c (NilZero.string_of_uint (Pos.to_uint p))
                         = false).
  { intros p.
    destruct (string_of_uint_nonnil _ (DecimalPos.Unsigned.to_uint_nonnil p))
      as [-> _].
    now apply string_of_uint_bytes. }
  destruct i as [|p|p]; cbn [Z.to_int NilZero.string_of_int].
  - change (hasByte c "0" = false). cbn [hasByte]. rewrite orb_false_r.
    destruct (Ascii.eqb_spec "0" c) as [<-|];
      [vm_compute in Hc; discriminate Hc|reflexivity].
  - apply Hu.
  - cbn [hasByte]. rewrite Hu, orb_false_r.
    destruct (Ascii.eqb_spec "-" c) as [<-|]; [congruence|reflexivity].
Qed.

Lemma Atoi_digits (d : Decimal.uint) :
  d <> Decimal.Nil -> uval d 0 < 2 ^ 63 ->
  Atoi (NilEmpty.string_of_uint d) = (uval d 0, None).
Proof.
  intros Hd Hmax.
  destruct (string_of_uint_nonnil d Hd) as (_ & c & s & Hs & Hplus & Hminus).
  pose proof (parse_digits_uval d 0 ltac:(lia)) as Hp.
  rewrite Hs in Hp. unfold Atoi. rewrite Hs, Hplus, Hminus.
  cbn [orb negb andb]. unfold ParseUint.
  rewrite Hp by (unfold uint64Max; lia).
  destruct (Z.leb_spec (2 ^ 63) (uval d 0)); [lia|reflexivity].
Qed.

Lemma Atoi_minus_digits (d : Decimal.uint) :
  d <> Decimal.Nil -> uval d 0 <= 2 ^ 63 ->
  Atoi (String "-" (NilEmpty.string_of_uint d)) = (- uval d 0, None).
Proof.
  intros Hd Hmax.
  destruct (string_of_uint_nonnil d Hd) as (_ & c & s & Hs & _).
  pose proof (parse_digits_uval d 0 ltac:(lia)) as Hp.
  rewrite Hs in Hp. unfold Atoi.
  change (Ascii.eqb "-" "-") with true.
  change (Ascii.eqb "-" "+") with false.
  cbn [orb negb andb]. unfold ParseUint. rewrite Hs.
  rewrite Hp by (unfold uint64Max; lia).
  destruct (Z.ltb_spec (2 ^ 63) (uval d 0)); [lia|reflexivity].
Qed.

(** [Atoi] reads back what [Itoa] printed, for every number an [int]
    holds. *)
Lemma Atoi_Itoa (i : Z) : intMin <= i <= intMax -> Atoi (Itoa i) = (i, None).
Proof.
  unfold intMin, intMax, Itoa. intros Hi.
  destruct i as [|p|p]; cbn [Z.to_int NilZero.string_of_int].
  - reflexivity.
  - pose proof (DecimalPos.Unsigned.to_uint_nonnil p) as Hn.
    destruct (string_of_uint_nonnil _ Hn) as [-> _].
    assert (Hv : uval (Pos.to_uint p) 0 = Z.pos p)
      by (rewrite <- uval_of_uint, DecimalPos.Unsigned.of_to; reflexivity).
    rewrite Atoi_digits; [now rewrite Hv|exact Hn|lia].
  - pose proof (DecimalPos.Unsigned.to_uint_nonnil p) as Hn.
    destruct (string_of_uint_nonnil _ Hn) as [-> _].
    assert (Hv : uval (Pos.to_uint p) 0 = Z.pos p)
      by (rewrite <- uval_of_uint, DecimalPos.Unsigned.of_to; reflexivity).
    rewrite Atoi_minus_digits; [now rewrite Hv|exact Hn|lia].
Qed.

(** The two cuts of the handler, on the key of an identity. *)
Lemma key_body_cuts (name host : string) (port : Z) :
  hasByte "/" name = false -> hasByte "/" host = false ->
  hasByte ":" host = false ->
  Split (TrimPrefix (keyNameOf (mkServiceInfo name host port)) servicePrefix)
    "/" = [name; host +:+ String ":" (Itoa port)]
  /\ Split (host +:+ String ":" (Itoa port)) ":" = [host; Itoa port].
Proof.
  intros Hname Hslash Hcolon. unfold keyNameOf.
  cbn [ServiceName HostAddr Port]. rewrite TrimPrefix_append.
  change ("/" +:+ host +:+ ":" +:+ Itoa port)
    with (String "/" (host +:+ String ":" (Itoa port))).
  rewrite (Split_cut "/" name _ Hname). split.
  - rewrite Split_plain; [reflexivity|].
    rewrite hasByte_append, Hslash. cbn [hasByte orb].
    change (Ascii.eqb ":" "/") with false. cbn [orb].
    now apply Itoa_bytes.
  - rewrite (Split_cut ":" host _ Hcolon).
    now rewrite Split_plain by now apply Itoa_bytes.
Qed.


(** X1: the key [RegisterService] builds for an identity is read back to the
    identity by the parser of the watch handler, when the service name has
    no slash, the host has neither slash nor colon, and the port is a
    number an [int] holds. *)
Theorem key_round_trip (serviceInfo : ServiceInfo) :
  hasByte "/" (ServiceName serviceInfo) = false ->
  hasByte "/" (HostAddr serviceInfo) = false ->
  hasByte ":" (HostAddr serviceInfo) = false ->
  intMin <= Port serviceInfo <= intMax ->
  parseServiceKey (keyNameOf serviceInfo) = Some serviceInfo.
Proof.
  intros Hname Hslash Hcolon Hport.
  pose proof (Atoi_Itoa (Port serviceInfo) Hport) as Hnum.
  destruct serviceInfo as [name host port].
  cbn [ServiceName HostAddr Port] in *.
  destruct (key_body_cuts name host port Hname Hslash Hcolon)
    as [Hsegments Hhost].
  unfold parseServiceKey. rewrite Hsegments, Hhost, Hnum.
  reflexivity.
Qed.


End KeyRoundTrip.

(** ** The snapshot, entry by entry *)

Section SnapshotEntries.

Context {Store : Type}.
Variable kapi : KeysAPI Store.
Variable Unmarshal : string -> result ServiceInfo.

Lemma parseNodes_all nodes : forall srvcList decoded,
  Forall2 (decodes Unmarshal) nodes decoded ->
  parseNodes Unmarshal nodes srvcList = Ok (srvcList ++ decoded).
Proof.
  induction nodes as [|node nodes IH]; intros srvcList decoded Hall;
    inversion Hall as [|? v ? vs Hd Hrest]; subst; cbn [parseNodes].
  - now rewrite app_nil_r.
  - unfold decodes in Hd. rewrite Hd, (IH _ vs Hrest).
    now rewrite <- app_assoc.
Qed.

Lemma parseNodes_first_error nodes : forall srvcList e,
  parseNodes Unmarshal nodes srvcList = Err e ->
  exists before node after decoded,
    nodes = before ++ node :: after
    /\ Forall2 (decodes Unmarshal) before decoded
    /\ Unmarshal (Value node) = Err e.
Proof.
  induction nodes as [|node nodes IH]; intros srvcList e; cbn [parseNodes];
    [discriminate|].
  destruct (Unmarshal (Value node)) as [v|e'] eqn:Hn.
  - intros (before & bad & after & decoded & -> & Hdec & Hbad)%IH.
    exists (node :: before), bad, after, (v :: decoded).
    split; [reflexivity|]. split; [now constructor|exact Hbad].
  - intros [= <-]. exists [], node, nodes, []. now repeat split.
Qed.

(** X3: a read that the store answers with a directory whose entries all
    decode returns the decoded instances, one per entry and in the order of
    the entries, with the index after the response's; [GetService] returns
    the same instances. *)
Theorem snapshot_lists_every_entry (st : Store) (name : string)
  (resp : Response) (decoded : list ServiceInfo) :
  kGet kapi st (serviceKey name) snapshotOptions = Ok resp ->
  Dir (RespNode resp) = true ->
  Forall2 (decodes Unmarshal) (Nodes (RespNode resp)) decoded ->
  getServiceState kapi Unmarshal st (serviceKey name)
    = ((Index resp + 1) mod 2 ^ 64, decoded, None)
  /\ GetService kapi Unmarshal st name = (decoded, None)
  /\ length decoded = length (Nodes (RespNode resp)).
Proof.
  intros Hget Hdir Hall.
  assert (Hread : getServiceState kapi Unmarshal st (serviceKey name)
                  = ((Index resp + 1) mod 2 ^ 64, decoded, None)).
  { unfold getServiceState. rewrite Hget, Hdir. cbn [negb].
    now rewrite (parseNodes_all _ [] decoded Hall). }
  split; [exact Hread|]. split.
  - unfold GetService. now rewrite Hread.
  - symmetry. exact (Forall2_length _ _ _ Hall).
Qed.

(** X4: a read that reports an error returns index 0 and no instance, even
    when entries before the failing one decoded; the error is the store's
    (and does not say "Key not found"), or "Invalid Response from etcd" for
    a response that is not a directory, or the codec's error on the first
    entry that does not decode. *)
Theorem failed_read_returns_nothing (st : Store) (key : string) (e : error) :
  (getServiceState kapi Unmarshal st key).2 = Some e ->
  (getServiceState kapi Unmarshal st key).1 = (0, [])
  /\ ((kGet kapi st key snapshotOptions = Err e
       /\ Contains e "Key not found" = false)
      \/ (exists resp,
             kGet kapi st key snapshotOptions = Ok resp
             /\ Dir (RespNode resp) = false
             /\ e = "Invalid Response from etcd")
      \/ (exists resp before node after decoded,
             kGet kapi st key snapshotOptions = Ok resp
             /\ Dir (RespNode resp) = true
             /\ Nodes (RespNode resp) = before ++ node :: after
             /\ Forall2 (decodes Unmarshal) before decoded
             /\ Unmarshal (Value node) = Err e)).
Proof.
  unfold getServiceState.
  destruct (kGet kapi st key snapshotOptions) as [resp|err] eqn:Hget.
  - destruct (Dir (RespNode resp)) eqn:Hdir; cbn [negb].
    + destruct (parseNodes Unmarshal (Nodes (RespNode resp)) [])
        as [l|err] eqn:Hp; cbn; [discriminate|].
      intros [= <-]. split; [reflexivity|]. right. right.
      destruct (parseNodes_first_error _ _ _ Hp)
        as (before & node & after & decoded & Hn & Hdec & Hbad).
      exists resp, before, node, after, decoded. now repeat split.
    + cbn. intros [= <-]. split; [reflexivity|]. right. left.
      exists resp. now repeat split.
  - destruct (Contains err "Key not found") eqn:Hc; cbn; [discriminate|].
    intros [= <-]. split; [reflexivity|]. now left.
Qed.


Lemma watchNextLoop_no_error (resps : list Response) :
  watchNextLoop (map Ok resps) = (resps, Waiting).
Proof.
  induction resps as [|r resps IH]; cbn [map watchNextLoop]; [reflexivity|].
  now rewrite IH.
Qed.



End SnapshotEntries.

(** ** The handler of a watch, input by input *)

Section HandlerFacts.

Lemma translate_sends (watchResp : Response) :
  handleWatchResp watchResp = Sends (translate watchResp).
Proof.
  unfold translate. pose proof (handleWatchResp_never_panics watchResp).
  now destruct (handleWatchResp watchResp).
Qed.

Lemma translate_at_most_one (watchResp : Response) :
  (length (translate watchResp) <= 1)%nat.
Proof.
  unfold translate. rewrite handleWatchResp_parse.
  destruct (parseServiceKey (Key (RespNode watchResp))) as [srvInfo|];
    [|cbn; lia].
  unfold eventsFor. destruct (String.eqb (Action watchResp) "set"); [cbn; lia|].
  destruct (String.eqb (Action watchResp) "delete"
            || String.eqb (Action watchResp) "expire"); cbn; lia.
Qed.

Lemma handlerLoop_cons_watch (watchResp : Response) (rest : list HandlerInput) :
  handlerLoop (FromWatch watchResp :: rest)
  = (translate watchResp ++ (handlerLoop rest).1.1, (handlerLoop rest).1.2,
     (handlerLoop rest).2).
Proof. apply handlerLoop_sends, translate_sends. Qed.

(** X7: a [true] on the stop channel ends the handler: it cancels the
    watch and returns, and whatever its channels deliver afterwards is not
    handled, so that the events it has sent are those of the inputs before
    the stop. *)
Theorem stop_request_ends_handler (before after : list HandlerInput) :
  Forall (fun i => i <> FromStop true) before ->
  handlerLoop (before ++ FromStop true :: after)
  = ((handlerLoop before).1.1, true, Returned)
  /\ handlerLoop (before ++ [FromStop true])
     = handlerLoop (before ++ FromStop true :: after).
Proof.
  intros Hb.
  assert (H : forall tl, handlerLoop (before ++ FromStop true :: tl)
                         = ((handlerLoop before).1.1, true, Returned)).
  { intros tl. induction before as [|[r|[|]] before IH]; cbn [app].
    - reflexivity.
    - apply Forall_cons in Hb as [_ Hb].
      rewrite !handlerLoop_cons_watch, (IH Hb). reflexivity.
    - apply Forall_cons in Hb as [Hneq _]. congruence.
    - apply Forall_cons in Hb as [_ Hb]. cbn [handlerLoop]. exact (IH Hb). }
  split; [apply H|]. now rewrite !H.
Qed.

(** X8: a [false] on the stop channel changes nothing: the handler goes on
    as if it had not been sent. *)
Theorem false_stop_is_ignored (before after : list HandlerInput) :
  handlerLoop (before ++ FromStop false :: after)
  = handlerLoop (before ++ after).
Proof.
  induction before as [|[r|[|]] before IH]; cbn [app].
  - reflexivity.
  - now rewrite !handlerLoop_cons_watch, IH.
  - reflexivity.
  - cbn [handlerLoop]. exact IH.
Qed.

(** X9: the handler sends the events of the watch responses in the order
    the responses arrive, at most one event per response, and none of its
    own. *)
Theorem handler_keeps_arrival_order (resps : list Response) :
  handlerLoop (map FromWatch resps)
  = (concat (map translate resps), false, Waiting)
  /\ Forall (fun r => (length (translate r) <= 1)%nat) resps
  /\ (length (handlerLoop (map FromWatch resps)).1.1 <= length resps)%nat.
Proof.
  assert (H : handlerLoop (map FromWatch resps)
              = (concat (map translate resps), false, Waiting)).
  { induction resps as [|r resps IH]; cbn [map concat]; [reflexivity|].
    now rewrite handlerLoop_cons_watch, IH. }
  split; [exact H|]. split.
  - apply Forall_forall. intros r _. apply translate_at_most_one.
  - rewrite H. cbn [fst]. clear H.
    induction resps as [|r resps IH]; cbn [map concat length]; [lia|].
    rewrite length_app. pose proof (translate_at_most_one r). lia.
Qed.

End HandlerFacts.

(** ** A watch, from the snapshot on *)

Section Session.

Context {Store : Type}.
Variable kapi : KeysAPI Store.
Variable Unmarshal : string -> result ServiceInfo.


End Session.

(** ** Registrations, one after another *)

Section RegistrySequences.

Context {Store : Type}.
Variable kapi : KeysAPI Store.
Variable Marshal : ServiceInfo -> result string.
Implicit Types (w : @World Store) (st : Store).

(** What a successful [RegisterService] leaves, from a world where the
    invariant holds. *)
Lemma RegisterService_success w serviceInfo w' :
  wfWorld w ->
  RegisterService kapi Marshal w serviceInfo = Returns w' None ->
  exists jsonVal,
    Marshal serviceInfo = Ok jsonVal
    /\ kSet kapi (store (cleared kapi w serviceInfo)) (keyNameOf serviceInfo)
         jsonVal {| TTL := serviceTTL |} = (store w', None)
    /\ serviceDb w'
       = <[keyNameOf serviceInfo :=
             mkServiceState (ServiceName serviceInfo) (HostAddr serviceInfo)
               (Port serviceInfo)
               (fresh (dom (chans (cleared kapi w serviceInfo))))]>
           (serviceDb (cleared kapi w serviceInfo))
    /\ chans w'
       = <[fresh (dom (chans (cleared kapi w serviceInfo))) := []]>
           (chans (cleared kapi w serviceInfo))
    /\ refreshers w'
       = refreshers w
           ++ [mkRefresher (keyNameOf serviceInfo) jsonVal
                 (fresh (dom (chans (cleared kapi w serviceInfo))))].
Proof.
  intros Hwf. rewrite (RegisterService_cases _ _ _ _ Hwf). cbv zeta.
  destruct (cleared_facts kapi w serviceInfo Hwf) as (_ & _ & Hrs).
  destruct (Marshal serviceInfo) as [jsonVal|e]; [|discriminate].
  destruct (kSet kapi _ _ _ _) as [st2 [e|]] eqn:Hset; cbn [fst snd];
    [discriminate|].
  intros [= <-]. exists jsonVal. cbn. rewrite Hrs. now repeat split.
Qed.

(** The records at other keys are those of before, through [cleared]. *)
Lemma cleared_other_keys w serviceInfo k :
  k <> keyNameOf serviceInfo ->
  serviceDb (cleared kapi w serviceInfo) !! k = serviceDb w !! k.
Proof.
  intros Hk. unfold cleared.
  destruct (serviceDb w !! keyNameOf serviceInfo); [|reflexivity].
  cbn. now rewrite lookup_delete_ne.
Qed.

(** X11: a [RegisterService] that returns no error has written the key to
    the store with the serialized identity and the time to live, has put
    the identity in the table at its key, and has started one renewal
    goroutine for that key and value, with a channel of its own that
    nothing was sent to. *)
Theorem register_service_succeeds (st0 : Store) acts w serviceInfo w' :
  run kapi Marshal (initWorld st0) acts = Some w ->
  RegisterService kapi Marshal w serviceInfo = Returns w' None ->
  exists jsonVal srvState,
    Marshal serviceInfo = Ok jsonVal
    /\ kSet kapi (store (cleared kapi w serviceInfo)) (keyNameOf serviceInfo)
         jsonVal {| TTL := serviceTTL |} = (store w', None)
    /\ serviceDb w' !! keyNameOf serviceInfo = Some srvState
    /\ infoOf srvState = serviceInfo
    /\ refreshers w'
       = refreshers w
           ++ [mkRefresher (keyNameOf serviceInfo) jsonVal (stopChan srvState)]
    /\ chans w !! stopChan srvState = None
    /\ chans w' !! stopChan srvState = Some []
    /\ liveRefreshersOf w' (keyNameOf serviceInfo)
       = [mkRefresher (keyNameOf serviceInfo) jsonVal (stopChan srvState)].
Proof.
  intros Hwf%reachable_wf HR.
  pose proof (RegisterService_wf _ _ _ _ _ _ Hwf HR) as Hwf'.
  destruct (RegisterService_success _ _ _ Hwf HR)
    as (jsonVal & Hm & Hset & Hdb & Hch & Hrs).
  set (ch := fresh (dom (chans (cleared kapi w serviceInfo)))) in *.
  exists jsonVal,
    (mkServiceState (ServiceName serviceInfo) (HostAddr serviceInfo)
       (Port serviceInfo) ch).
  cbn [stopChan].
  assert (Hfresh : chans (cleared kapi w serviceInfo) !! ch = None)
    by (apply not_elem_of_dom, is_fresh).
  split; [exact Hm|]. split; [exact Hset|].
  split; [rewrite Hdb; apply lookup_insert_eq|].
  split; [apply infoOf_mk|]. split; [exact Hrs|].
  split.
  { revert Hfresh. unfold cleared.
    destruct (serviceDb w !! keyNameOf serviceInfo) as [s|]; [|easy].
    cbn. intros [H _]%lookup_insert_None. exact H. }
  split; [rewrite Hch; apply lookup_insert_eq|].
  pose proof (live_refreshers_count w' (keyNameOf serviceInfo) Hwf') as Hlen.
  rewrite Hdb, lookup_insert_eq in Hlen.
  assert (Hin : mkRefresher (keyNameOf serviceInfo) jsonVal ch
                  ∈ liveRefreshersOf w' (keyNameOf serviceInfo)).
  { apply list_elem_of_filter. split.
    - cbn. split; [reflexivity|]. unfold liveRefresher. cbn.
      now rewrite Hch, lookup_insert_eq.
    - rewrite Hrs. apply elem_of_app. right. left. }
  destruct (liveRefreshersOf w' (keyNameOf serviceInfo)) as [|r [|r' tl]];
    cbn in Hlen; try discriminate.
  now apply list_elem_of_singleton in Hin as <-.
Qed.

(** X12: registering or de-registering a service leaves the other keys of
    the table as they were, and sends nothing on the channels of their
    renewal goroutines: no other service stops being renewed. *)
Theorem other_services_untouched (st0 : Store) acts w serviceInfo w' err
  (k : string) (srvState : serviceState) :
  run kapi Marshal (initWorld st0) acts = Some w ->
  RegisterService kapi Marshal w serviceInfo = Returns w' err
  \/ DeregisterService kapi w serviceInfo = Returns w' err ->
  k <> keyNameOf serviceInfo ->
  serviceDb w !! k = Some srvState ->
  serviceDb w' !! k = Some srvState
  /\ chans w' !! stopChan srvState = Some []
  /\ length (liveRefreshersOf w' k) = 1%nat.
Proof.
  intros Hwf%reachable_wf Hcall Hk Hs.
  assert (Hwf' : wfWorld w').
  { destruct Hcall as [HR|HD].
    - exact (RegisterService_wf _ _ _ _ _ _ Hwf HR).
    - apply (step_wf kapi Marshal w (ActDeregister serviceInfo)); [exact Hwf|].
      cbn [step]. now rewrite HD. }
  assert (Hdb : serviceDb w' !! k = Some srvState).
  { destruct Hcall as [HR|HD].
    - rewrite (RegisterService_cases _ _ _ _ Hwf) in HR. cbv zeta in HR.
      pose proof (cleared_other_keys w serviceInfo k Hk) as Hc.
      rewrite Hs in Hc.
      destruct (Marshal serviceInfo) as [jsonVal|e].
      + destruct (kSet kapi _ _ _ _).2; injection HR as <- _; cbn.
        * exact Hc.
        * now rewrite lookup_insert_ne.
      + now injection HR as <- _.
    - destruct (serviceDb w !! keyNameOf serviceInfo) as [s|] eqn:Hkey.
      + rewrite (DeregisterService_found _ _ _ _ Hwf Hkey) in HD.
        injection HD as <- _. cbn. now rewrite lookup_delete_ne.
      + rewrite (DeregisterService_missing _ _ _ Hkey) in HD.
        now injection HD as <- _. }
  split; [exact Hdb|]. split; [exact (wf_open _ Hwf' _ _ Hdb)|].
  rewrite (live_refreshers_count w' k Hwf'). now rewrite Hdb.
Qed.

(** X13: registering a service and de-registering it again leaves the
    table as it was without the key, whether the store's delete fails or
    not; and a second [DeregisterService] finds nothing: it returns
    "Service not found" and changes nothing. *)
Theorem register_then_deregister (st0 : Store) acts w serviceInfo w1 :
  run kapi Marshal (initWorld st0) acts = Some w ->
  RegisterService kapi Marshal w serviceInfo = Returns w1 None ->
  exists w2,
    DeregisterService kapi w1 serviceInfo
      = Returns w2 (kDelete kapi (store w1) (keyNameOf serviceInfo)).2
    /\ serviceDb w2 = delete (keyNameOf serviceInfo) (serviceDb w)
    /\ liveRefreshersOf w2 (keyNameOf serviceInfo) = []
    /\ DeregisterService kapi w2 serviceInfo
       = Returns w2 (Some "Service not found"%string).
Proof.
  intros Hwf%reachable_wf HR.
  pose proof (RegisterService_wf _ _ _ _ _ _ Hwf HR) as Hwf1.
  destruct (RegisterService_success _ _ _ Hwf HR)
    as (jsonVal & _ & _ & Hdb & _ & _).
  assert (Hk : serviceDb w1 !! keyNameOf serviceInfo
               = Some (mkServiceState (ServiceName serviceInfo)
                         (HostAddr serviceInfo) (Port serviceInfo)
                         (fresh (dom (chans (cleared kapi w serviceInfo))))))
    by (rewrite Hdb; apply lookup_insert_eq).
  eexists. split; [apply (DeregisterService_found _ _ _ _ Hwf1 Hk)|].
  cbn [serviceDb].
  assert (Hdel : delete (keyNameOf serviceInfo) (serviceDb w1)
                 = delete (keyNameOf serviceInfo) (serviceDb w)).
  { rewrite Hdb, delete_insert_eq. unfold cleared.
    destruct (serviceDb w !! keyNameOf serviceInfo); [|reflexivity].
    cbn. apply delete_delete_eq. }
  split; [exact Hdel|].
  pose proof (wf_signal _ _ _ (kDelete kapi (store w1)
                                 (keyNameOf serviceInfo)).1 Hwf1 Hk) as Hwf2.
  split.
  - pose proof (live_refreshers_count _ (keyNameOf serviceInfo) Hwf2) as Hl.
    cbn [serviceDb] in Hl. rewrite lookup_delete_eq in Hl.
    now apply nil_length_inv.
  - apply DeregisterService_missing. cbn. apply lookup_delete_eq.
Qed.

End RegistrySequences.

(** ** What the renewal goroutines write *)

Section RenewalValues.

Context {Store : Type}.
Variable kapi : KeysAPI Store.
Variable Marshal : ServiceInfo -> result string.
Implicit Types (w : @World Store) (st : Store).

Lemma recorded_init st : valuesRecorded Marshal (initWorld st).
Proof. intros k s v H. cbn in H. now rewrite lookup_empty in H. Qed.

Lemma recorded_shrink w st' db' cs' rs' :
  valuesRecorded Marshal w ->
  (forall k s, db' !! k = Some s -> serviceDb w !! k = Some s) ->
  (forall r, r ∈ rs' -> r ∈ refreshers w) ->
  valuesRecorded Marshal (mkWorld st' db' cs' rs').
Proof. intros HJ Hdb Hrs k s v Hk Hr. apply (HJ k); cbn in *; auto. Qed.

Lemma recorded_cleared w serviceInfo :
  valuesRecorded Marshal w -> valuesRecorded Marshal (cleared kapi w serviceInfo).
Proof.
  intros HJ. unfold cleared.
  destruct (serviceDb w !! keyNameOf serviceInfo); [|exact HJ].
  apply (recorded_shrink w); [exact HJ| |auto].
  now intros k' s' [_ H]%lookup_delete_Some.
Qed.

Lemma step_recorded w a w' :
  wfWorld w -> valuesRecorded Marshal w -> step kapi Marshal w a = Some w' -> valuesRecorded Marshal w'.
Proof.
  intros Hwf HJ. destruct a as [serviceInfo|serviceInfo|i env now|i];
    cbn [step].
  - rewrite (RegisterService_cases _ _ _ _ Hwf). cbv zeta.
    pose proof (recorded_cleared w serviceInfo HJ) as HJ1.
    destruct (cleared_facts kapi w serviceInfo Hwf) as (Hwf1 & Hk1 & _).
    destruct (Marshal serviceInfo) as [jsonVal|e] eqn:Hm.
    + destruct (kSet kapi _ _ _ _).2.
      * intros [= <-]. apply (recorded_shrink _ _ _ _ _ HJ1); auto.
      * intros [= <-]. intros k s v. cbn [serviceDb refreshers].
        set (ch := fresh (dom (chans (cleared kapi w serviceInfo)))).
        assert (Hfresh : chans (cleared kapi w serviceInfo) !! ch = None)
          by (apply not_elem_of_dom, is_fresh).
        intros [[<- <-]|[Hne Hs]]%lookup_insert_Some
               [Hr|Hr%list_elem_of_singleton]%elem_of_app.
        -- destruct (wf_made _ Hwf1 _ Hr) as [b Hb]. cbn in Hb. congruence.
        -- injection Hr as <-. now rewrite infoOf_mk.
        -- now apply (HJ1 k).
        -- injection Hr as Hk _ _. congruence.
    + intros [= <-]. exact HJ1.
  - destruct (serviceDb w !! keyNameOf serviceInfo) as [s|] eqn:Hk.
    + rewrite (DeregisterService_found _ _ _ _ Hwf Hk). intros [= <-].
      apply (recorded_shrink _ _ _ _ _ HJ); [|auto].
      now intros k' s' [_ H]%lookup_delete_Some.
    + rewrite (DeregisterService_missing _ _ _ Hk). now intros [= <-].
  - destruct (refreshers w !! i) as [r|]; [|discriminate].
    destruct (refreshCycle kapi env (rKeyName r) (rKeyVal r) (store w) now)
      as [[st' t'] ws].
    intros [= <-]. apply (recorded_shrink _ _ _ _ _ HJ); auto.
  - destruct (refreshers w !! i) as [r|]; [|discriminate].
    destruct (chans w !! rStopChan r) as [[|v buf]|]; try discriminate.
    intros [= <-]. apply (recorded_shrink _ _ _ _ _ HJ); [auto|].
    intros r'. apply list_elem_of_delete_inv.
Qed.

Lemma run_recorded acts : forall w w',
  wfWorld w -> valuesRecorded Marshal w -> run kapi Marshal w acts = Some w' -> valuesRecorded Marshal w'.
Proof.
  induction acts as [|a acts IH]; cbn [run]; intros w w' Hwf HJ.
  - now intros [= <-].
  - destruct (step kapi Marshal w a) as [w1|] eqn:Hs; [|discriminate].
    apply IH; [exact (step_wf _ _ _ _ _ Hwf Hs)|exact (step_recorded _ _ _ Hwf HJ Hs)].
Qed.

(** X14: in every world the plugin gets to, a renewal goroutine that was
    not told to stop belongs to a record of the table: it writes under the
    key of the record's identity the serialization of that identity, the
    value the registration wrote. *)
Theorem live_renewal_writes_registered_value (st0 : Store) acts w
  (r : Refresher) :
  run kapi Marshal (initWorld st0) acts = Some w ->
  r ∈ refreshers w -> liveRefresher w r = true ->
  exists srvState,
    serviceDb w !! rKeyName r = Some srvState
    /\ stopChan srvState = rStopChan r
    /\ rKeyName r = keyNameOf (infoOf srvState)
    /\ Marshal (infoOf srvState) = Ok (rKeyVal r).
Proof.
  intros Hrun Hr Hlive.
  pose proof (reachable_wf _ _ _ _ _ Hrun) as Hwf.
  pose proof (run_recorded _ _ _ (wf_init st0) (recorded_init st0) Hrun)
    as HJ.
  assert (Hc : chans w !! rStopChan r = Some []).
  { unfold liveRefresher in Hlive.
    now destruct (chans w !! rStopChan r) as [[|]|]. }
  destruct (wf_live _ Hwf _ Hr Hc) as (s & Hs & Hch).
  exists s. split; [exact Hs|]. split; [exact Hch|].
  split; [symmetry; exact (wf_key _ Hwf _ _ Hs)|].
  apply (HJ (rKeyName r)); [exact Hs|]. rewrite Hch. now destruct r.
Qed.

End RenewalValues.

(** ** A renewal loop that is never told to stop *)

Section RenewalForever.

Context {Store : Type}.
Variable kapi : KeysAPI Store.
Variable env : RefreshEnv.
Variables keyName keyVal : string.

Lemma refreshCycle_writes (st : Store) (t : Z) :
  (1 <= length (refreshCycle kapi env keyName keyVal st t).2 <= 2)%nat.
Proof.
  unfold refreshCycle.
  destruct (kSet kapi st keyName keyVal {| TTL := serviceTTL |})
    as [st1 [e|]]; cbn; [|lia].
  destruct (kSet kapi st1 keyName keyVal {| TTL := serviceTTL |}); cbn. lia.
Qed.

(** X15: a renewal loop that no stop signal is sent to never returns: it
    goes through one timer cycle after another, each with one or two
    writes, for as long as it is followed. *)
Theorem renewal_without_stop_goes_on (fuel : nat) (st : Store) (now : Z) :
  stopAt env = None ->
  (refreshService kapi fuel env keyName keyVal st now).1.2 = StillRefreshing
  /\ length (refreshService kapi fuel env keyName keyVal st now).1.1 = fuel
  /\ (fuel
      <= length (concat (map writes
                   (refreshService kapi fuel env keyName keyVal st now).1.1))
      <= 2 * fuel)%nat.
Proof.
  intros Hs. revert st now.
  induction fuel as [|fuel IH]; intros st now; [cbn; repeat split; lia|].
  assert (Hsel : selectRefresh env now = TimerFired (now + refreshInterval))
    by (unfold selectRefresh; now rewrite Hs).
  rewrite (refreshService_step _ _ _ _ _ _ _ _ Hsel). cbv zeta. cbn [fst snd].
  set (cyc := refreshCycle kapi env keyName keyVal st (now + refreshInterval)).
  destruct (IH cyc.1.1 cyc.1.2) as (Hfin & Hlen & Hw).
  split; [exact Hfin|]. split; [cbn [length]; now rewrite Hlen|].
  cbn [map concat writes]. rewrite length_app.
  pose proof (refreshCycle_writes st (now + refreshInterval)). fold cyc in H.
  lia.
Qed.

End RenewalForever.

(** ** Objects and directories *)

Section ObjectFacts.

Lemma recursAddNode_values : forall (node : Node) (lst : list string),
  recursAddNode node lst = lst ++ fileValues node.
Proof.
  fix IH 1. intros [k d v nodes] lst. cbn [recursAddNode fileValues].
  revert lst. induction nodes as [|inner rest IHl]; intros lst.
  - now rewrite app_nil_r.
  - rewrite IHl. destruct (Dir inner); cbn [negb].
    + rewrite (IH inner lst). now rewrite <- app_assoc.
    + now rewrite <- app_assoc.
Qed.

(** X16: [recursAddNode] keeps the list it is given and adds to its end the
    values of the files below the node, left to right and directories gone
    into where they stand; the value a directory carries is not listed. *)
Theorem recursAddNode_appends_file_values (node : Node)
  (lst : list string) :
  recursAddNode node lst = lst ++ fileValues node
  /\ recursAddNode node lst = lst ++ recursAddNode node [].
Proof.
  split; [apply recursAddNode_values|].
  now rewrite (recursAddNode_values node []), recursAddNode_values.
Qed.

Context {Store : Type}.
Variable kapi : KeysAPI Store.
Context {A : Type}.
Variable MarshalObj : A -> result string.
Variable UnmarshalObj : string -> result A.

(** X17: [ListDir] never reports a failure of the store: whatever error the
    read returns, the result is the empty list and no error, as for a
    directory without files. The one error it reports is "Response is not
    directory", for a response that is not one; for a directory it lists
    the values of the files below it. *)
Theorem ListDir_hides_store_errors (st : Store) (key : string) :
  (forall e, kGet kapi st (objPrefix +:+ key)
               {| Recursive := true; Sort := true |} = Err e ->
             ListDir kapi st key = ([], None))
  /\ (forall e, (ListDir kapi st key).2 = Some e ->
                e = "Response is not directory"
                /\ (ListDir kapi st key).1 = []
                /\ exists resp,
                    kGet kapi st (objPrefix +:+ key)
                      {| Recursive := true; Sort := true |} = Ok resp
                    /\ Dir (RespNode resp) = false)
  /\ (forall resp, kGet kapi st (objPrefix +:+ key)
                     {| Recursive := true; Sort := true |} = Ok resp ->
                   Dir (RespNode resp) = true ->
                   ListDir kapi st key = (fileValues (RespNode resp), None)).
Proof.
  unfold ListDir.
  destruct (kGet kapi st (objPrefix +:+ key)
              {| Recursive := true; Sort := true |}) as [resp|err].
  - split; [discriminate|]. destruct (Dir (RespNode resp)) eqn:Hd; cbn.
    + split; [discriminate|]. intros r [= <-] _.
      now rewrite recursAddNode_values.
    + split; [|intros r [= <-]; congruence].
      intros e [= <-]. repeat split. now exists resp.
  - split; [reflexivity|]. split; discriminate.
Qed.

(** X18: on a store where a read returns what was last written to a key,
    and with a codec that decodes what it encoded, [GetObj] after a
    [SetObj] that returned no error gives the object back. *)
Theorem SetObj_then_GetObj (st st' : Store) (key : string) (value : A) :
  (forall s k v s', kSet kapi s k v nilSetOptions = (s', None) ->
                    exists resp, kGet kapi s' k nilGetOptions = Ok resp
                                 /\ Value (RespNode resp) = v) ->
  (forall a text, MarshalObj a = Ok text -> UnmarshalObj text = Ok a) ->
  SetObj kapi MarshalObj st key value = (st', None) ->
  GetObj kapi UnmarshalObj st' key = Ok value.
Proof.
  intros Hstore Hcodec. unfold SetObj, GetObj.
  destruct (MarshalObj value) as [jsonVal|e] eqn:Hm; [|discriminate].
  intros (resp & Hget & Hval)%Hstore.
  now rewrite Hget, Hval, (Hcodec _ _ Hm).
Qed.

End ObjectFacts.

(** ** The local address *)

Section LocalAddrFacts.

Variable httpGet : string -> result (result string).
Variable UnmarshalName : string -> result string.
Variable UnmarshalMembers : string -> result memData.

Lemma Split_first_piece (s : string) (c : ascii) :
  exists piece, Split s (String c "") !! 0%nat = Some piece
                /\ hasByte c piece = false.
Proof.
  unfold Split.
  destruct (split_scan (String c "") s 0 []) as [|piece tl] eqn:Hs.
  - now apply split_scan_nonempty in Hs.
  - exists piece. split; [reflexivity|].
    apply (split_scan_head c s [] piece); [reflexivity|]. now rewrite Hs.
Qed.

Lemma scanMembers_result (myName : string) (members : list member) :
  (exists addr, scanMembers myName members = Done (addr, None)
                /\ hasByte ":" addr = false)
  \/ scanMembers myName members = Done ("", Some "Address not found").
Proof.
  induction members as [|mem rest IH]; cbn [scanMembers]; [now right|].
  destruct (String.eqb (Name mem) myName); [|exact IH].
  destruct (ClientURLs mem) as [|clientURL urls]; [exact IH|].
  destruct (Split_first_piece (TrimPrefix clientURL "http://") ":")
    as (piece & -> & Hp).
  left. now exists piece.
Qed.

(** X19: [GetLocalAddr] does not panic; an address it returns has no colon
    in it (it is what comes before the first colon of a client URL); and
    the errors it returns, with an empty address, are "Error getting self
    state", "Error getting members state" and "Address not found", whatever
    the requests or the decoder failed with. *)
Theorem GetLocalAddr_results :
  (exists addr,
      GetLocalAddr httpGet UnmarshalName UnmarshalMembers = Done (addr, None)
      /\ hasByte ":" addr = false)
  \/ (exists e,
         GetLocalAddr httpGet UnmarshalName UnmarshalMembers
         = Done ("", Some e)
         /\ (e = "Error getting self state"
             \/ e = "Error getting members state"
             \/ e = "Address not found")).
Proof.
  unfold GetLocalAddr.
  destruct (httpGetJSON httpGet UnmarshalName _) as [myName|e1].
  - destruct (httpGetJSON httpGet UnmarshalMembers _) as [md|e2].
    + destruct (scanMembers_result myName (Members md))
        as [(addr & Hs & Ha)| Hs].
      * left. now exists addr.
      * right. eexists. split; [exact Hs|]. now right; right.
    + right. eexists. split; [reflexivity|]. now right; left.
  - right. eexists. split; [reflexivity|]. now left.
Qed.

(** X20: the address found is the host of the first client URL of the first
    member that has the name of this endpoint and a client URL: members of
    another name, and members of the name without a URL, are passed over,
    and the URLs after the first are not looked at. *)
Theorem scanMembers_first_url (myName host port : string)
  (skipped rest : list member) (mem : member) (urls : list string) :
  Forall (fun m => Name m <> myName \/ ClientURLs m = []) skipped ->
  Name mem = myName ->
  ClientURLs mem = ("http://" +:+ host +:+ ":" +:+ port) :: urls ->
  hasByte ":" host = false ->
  scanMembers myName (skipped ++ mem :: rest) = Done (host, None).
Proof.
  intros Hskip Hname Hurls Hhost.
  induction skipped as [|m skipped IH]; cbn [app scanMembers].
  - rewrite Hname, String.eqb_refl, Hurls, TrimPrefix_append.
    change (host +:+ ":" +:+ port) with (host +:+ String ":" port).
    now rewrite (Split_cut ":" host port Hhost).
  - apply Forall_cons in Hskip as [Hm Hskip].
    destruct (String.eqb_spec (Name m) myName) as [Heq|_]; [|exact (IH Hskip)].
    destruct Hm as [Hm| ->]; [congruence|exact (IH Hskip)].
Qed.

(** X21: only the prefix [http://] is taken off a client URL: for a URL of
    the scheme [https] the address returned is the text "https". *)
Theorem scanMembers_https_url (myName : string) (rest : list member)
  (mem : member) (hostPort : string) (urls : list string) :
  Name mem = myName ->
  ClientURLs mem = ("https://" +:+ hostPort) :: urls ->
  scanMembers myName (mem :: rest) = Done ("https", None).
Proof.
  intros Hname Hurls. cbn [scanMembers].
  rewrite Hname, String.eqb_refl, Hurls.
  change ("https://" +:+ hostPort)
    with ("https" +:+ String ":" ("//" +:+ hostPort)).
  assert (Htrim : TrimPrefix ("https" +:+ String ":" ("//" +:+ hostPort))
                    "http://"
                  = "https" +:+ String ":" ("//" +:+ hostPort))
    by reflexivity.
  rewrite Htrim. now rewrite (Split_cut ":" "https" _ eq_refl).
Qed.

End LocalAddrFacts.

(** ** Identities and their keys *)

(** X22: two identities whose service names have no slash and whose hosts
    have no colon are registered under different keys, unless they are the
    same identity. *)
Theorem identities_have_own_keys (a b : ServiceInfo) :
  hasByte "/" (ServiceName a) = false -> hasByte "/" (ServiceName b) = false ->
  hasByte ":" (HostAddr a) = false -> hasByte ":" (HostAddr b) = false ->
  a <> b -> keyNameOf a <> keyNameOf b.
Proof.
  intros Ha Hb Hha Hhb Hne Hkey. apply Hne.
  now apply keyNameOf_inj.
Qed.

(** ** The further properties at work *)

Lemma key_round_trip_witness :
  parseServiceKey (keyNameOf MemStore.web) = Some MemStore.web.
Proof.
  apply (key_round_trip MemStore.web); try reflexivity.
  unfold intMin, intMax. cbn. lia.
Defined.


Lemma snapshot_lists_every_entry_witness :
  getServiceState MemStore.kapi MemStore.Unmarshal MemStore.oneWeb
    (serviceKey "web") = (8, [MemStore.web], None)
  /\ GetService MemStore.kapi MemStore.Unmarshal MemStore.oneWeb "web"
     = ([MemStore.web], None).
Proof.
  destruct (snapshot_lists_every_entry MemStore.kapi MemStore.Unmarshal
              MemStore.oneWeb "web" WatchStore.oneWebResponse [MemStore.web]
              eq_refl eq_refl)
    as (Hread & Hget & _).
  - repeat constructor.
  - split; [exact Hread|exact Hget].
Defined.

Lemma failed_read_returns_nothing_witness :
  (getServiceState MemStore.kapi MemStore.Unmarshal MemStore.down42
     (serviceKey "web")).1 = (0, []).
Proof.
  exact (proj1 (failed_read_returns_nothing MemStore.kapi MemStore.Unmarshal
                  MemStore.down42 (serviceKey "web") MemStore.unavailable
                  eq_refl)).
Defined.



Lemma stop_request_ends_handler_witness :
  handlerLoop ([FromWatch MemStore.setWeb]
                 ++ FromStop true :: [FromWatch WatchStore.expireWeb])
  = ([addEvent MemStore.web], true, Returned).
Proof.
  apply (proj1 (stop_request_ends_handler [FromWatch MemStore.setWeb]
                  [FromWatch WatchStore.expireWeb]
                  ltac:(repeat constructor; discriminate))).
Defined.

Lemma register_service_succeeds_witness :
  exists jsonVal srvState,
    MemStore.Marshal MemStore.web = Ok jsonVal
    /\ serviceDb (MemStore.registered MemStore.empty42)
         !! keyNameOf MemStore.web = Some srvState
    /\ liveRefreshersOf (MemStore.registered MemStore.empty42)
         (keyNameOf MemStore.web)
       = [mkRefresher (keyNameOf MemStore.web) jsonVal (stopChan srvState)].
Proof.
  destruct (register_service_succeeds MemStore.kapi MemStore.Marshal
              MemStore.empty42 [] (initWorld MemStore.empty42) MemStore.web
              (MemStore.registered MemStore.empty42) eq_refl)
    as (jsonVal & srvState & Hm & _ & Hdb & _ & _ & _ & _ & Hlive).
  - vm_compute. reflexivity.
  - exists jsonVal, srvState. now repeat split.
Defined.

Lemma other_services_untouched_witness :
  exists w',
    RegisterService MemStore.kapi MemStore.Marshal
      (MemStore.registered MemStore.empty42) WatchStore.db = Returns w' None
    /\ serviceDb w' !! MemStore.webKey
       = Some (mkServiceState "web" "10.0.0.5" 8080 0)
    /\ chans w' !! 0%nat = Some []
    /\ length (liveRefreshersOf w' MemStore.webKey) = 1%nat.
Proof.
  eexists. split; [vm_compute; reflexivity|].
  apply (other_services_untouched MemStore.kapi MemStore.Marshal
           MemStore.empty42 [ActRegister MemStore.web]
           (MemStore.registered MemStore.empty42) WatchStore.db _ None
           MemStore.webKey (mkServiceState "web" "10.0.0.5" 8080 0)
           (registered_reachable _ (or_introl eq_refl))
           (or_introl eq_refl)).
  - vm_compute. discriminate.
  - vm_compute. reflexivity.
Defined.

Lemma register_then_deregister_witness :
  exists w2,
    DeregisterService MemStore.kapi (MemStore.registered MemStore.empty42)
      MemStore.web = Returns w2 None
    /\ serviceDb w2 = delete (keyNameOf MemStore.web) ∅
    /\ DeregisterService MemStore.kapi w2 MemStore.web
       = Returns w2 (Some "Service not found"%string).
Proof.
  destruct (register_then_deregister MemStore.kapi MemStore.Marshal
              MemStore.empty42 [] (initWorld MemStore.empty42) MemStore.web
              (MemStore.registered MemStore.empty42) eq_refl)
    as (w2 & HD & Hdb & _ & Hagain).
  - vm_compute. reflexivity.
  - exists w2. split; [exact HD|]. split; [exact Hdb|exact Hagain].
Defined.

Lemma live_renewal_writes_registered_value_witness :
  exists srvState,
    serviceDb (MemStore.registered MemStore.empty42) !! MemStore.webKey
      = Some srvState
    /\ MemStore.Marshal (infoOf srvState) = Ok MemStore.webVal.
Proof.
  destruct (live_renewal_writes_registered_value MemStore.kapi MemStore.Marshal
              MemStore.empty42 [ActRegister MemStore.web]
              (MemStore.registered MemStore.empty42)
              (mkRefresher MemStore.webKey MemStore.webVal 0)
              (registered_reachable _ (or_introl eq_refl)))
    as (srvState & Hs & _ & _ & Hm).
  - left.
  - reflexivity.
  - exists srvState. split; [exact Hs|exact Hm].
Defined.

Lemma renewal_without_stop_goes_on_witness :
  (refreshService MemStore.kapi 3 WatchStore.neverStopped MemStore.webKey
     MemStore.webVal MemStore.empty42 0).1.2 = StillRefreshing
  /\ length (refreshService MemStore.kapi 3 WatchStore.neverStopped
               MemStore.webKey MemStore.webVal MemStore.empty42 0).1.1
     = 3%nat.
Proof.
  destruct (renewal_without_stop_goes_on MemStore.kapi WatchStore.neverStopped
              MemStore.webKey MemStore.webVal 3 MemStore.empty42 0 eq_refl)
    as (Hfin & Hlen & _).
  split; [exact Hfin|exact Hlen].
Defined.

Lemma ObjStore_reads_last_write (s : ObjStore.t) (k v : string)
  (s' : ObjStore.t) :
  kSet ObjStore.kapi s k v nilSetOptions = (s', None) ->
  exists resp, kGet ObjStore.kapi s' k nilGetOptions = Ok resp
               /\ Value (RespNode resp) = v.
Proof.
  cbn. unfold ObjStore.set, ObjStore.get. intros [= <-].
  cbn [ObjStore.find]. rewrite String.eqb_refl. eexists. now split.
Qed.

Lemma SetObj_then_GetObj_witness :
  GetObj ObjStore.kapi WatchStore.asText
    (SetObj ObjStore.kapi WatchStore.asText [] "nets/a" "A").1 "nets/a"
  = Ok "A".
Proof.
  apply (SetObj_then_GetObj ObjStore.kapi WatchStore.asText
           WatchStore.asText [] _ "nets/a" "A").
  - apply ObjStore_reads_last_write.
  - now intros a text [= <-].
  - reflexivity.
Defined.

Lemma scanMembers_first_url_witness :
  scanMembers "node1" ObjStore.cluster = Done ("10.0.0.1", None).
Proof.
  apply (scanMembers_first_url "node1" "10.0.0.1" "2379"
           [mkMember "node2" ["http://10.0.0.2:2379"]; mkMember "node1" []]
           []
           (mkMember "node1"
              ["http://10.0.0.1:2379"; "http://127.0.0.1:2379"])
           ["http://127.0.0.1:2379"]).
  - apply Forall_cons. split; [left; discriminate|].
    apply Forall_cons. split; [right; reflexivity|]. constructor.
  - reflexivity.
  - reflexivity.
  - reflexivity.
Defined.

Lemma scanMembers_https_url_witness :
  scanMembers "node1" ObjStore.secured = Done ("https", None).
Proof.
  apply (scanMembers_https_url "node1" []
           (mkMember "node1" ["https://10.0.0.1:2379"]) "10.0.0.1:2379" []);
    reflexivity.
Defined.

Lemma identities_have_own_keys_witness :
  keyNameOf MemStore.web <> keyNameOf WatchStore.db.
Proof.
  apply (identities_have_own_keys MemStore.web WatchStore.db);
    try reflexivity.
  discriminate.
Defined.
